(** * Local transfer entropy over elementary cellular automata

    A shallow embedding of [CAtransferEntropy.py]: [createCA], [teCA],
    [teCA_null], [teCA_Box] and [greatestInfluence].

    The numpy arrays that the Python code mutates in place, or reaches through
    more than one name, live in an explicit heap; the numpy random generator
    and the JIDT discrete transfer-entropy calculator are external and enter
    through two interfaces ([NumpyRandom], [TECalculator]).  Python exceptions
    are the [Raise] results of an error monad. *)

From Stdlib Require Import ZArith QArith Lia Ascii String DecimalString.
From stdpp Require Import gmap strings list fin_maps.

(** ** Python exceptions *)

Inductive exn : Type :=
| KeyError (key : string)
| ValueError
| IndexError
| OverflowError
| TypeError
| UnboundLocalError (var : string).

Inductive result (A : Type) : Type :=
| Ok (a : A)
| Raise (e : exn).
Arguments Ok {A} a.
Arguments Raise {A} e.

(** ** External interfaces *)

(** [numpy.random]'s global generator: [randint g low high n] is
    [np.random.randint(low, high, size=n)] and [shuffle g a] is the order that
    [np.random.shuffle] leaves in the array, each with the generator's next
    state. *)
Class NumpyRandom : Type := {
  rng : Type;
  randint : rng → Z → Z → nat → list Z * rng;
  shuffle : rng → list Z → list Z * rng
}.

(** JIDT's [TransferEntropyCalculatorDiscrete], reached through JPype.  The
    object's state is threaded explicitly; the local values it returns are
    Java doubles, taken here as the rationals they denote. *)
Class TECalculator : Type := {
  calc_state : Type;
  calc_new : Z → Z → calc_state;
  calc_initialise : calc_state → calc_state;
  calc_addObservations : calc_state → list Z → list Z → calc_state;
  calc_computeLocal : calc_state → list Z → list Z → list Q
}.

(** numpy's floating-point reductions of a sequence of integers,
    [a.mean(dtype=float)] and [np.std(a, dtype=float)], with the float64
    values they return. *)
Class NumpyFloat : Type := {
  float64 : Type;
  np_mean : list Z → float64;
  np_std : list Z → float64
}.

(** What is sent to the calculator, in order. *)
Inductive calc_event : Type :=
| EvInitialise
| EvAddObservations (source dest : list Z)
| EvComputeLocal (source dest : list Z).

(** ** Arrays *)

(** A two-dimensional array: [rows] holds [length rows] rows of [cols]
    entries each, so that its shape is [(length rows, cols)] also when it has
    no row. *)
Record Matrix (A : Type) : Type := mkMatrix {
  cols : nat;
  rows : list (list A)
}.
Arguments mkMatrix {A} cols rows.
Arguments cols {A} m.
Arguments rows {A} m.

Definition shape {A} (m : Matrix A) : nat * nat := (length (rows m), cols m).

Definition wf_matrix {A} (m : Matrix A) : Prop :=
  Forall (λ r, length r = cols m) (rows m).

(** A three-dimensional array of shape [(length planes, dim1, dim2)]. *)
Record Box (A : Type) : Type := mkBox {
  dim1 : nat;
  dim2 : nat;
  planes : list (list (list A))
}.
Arguments mkBox {A} dim1 dim2 planes.
Arguments dim1 {A} b.
Arguments dim2 {A} b.
Arguments planes {A} b.

Definition shape3 {A} (b : Box A) : nat * nat * nat :=
  (length (planes b), dim1 b, dim2 b).

Definition wf_box {A} (b : Box A) : Prop :=
  Forall (λ p, length p = dim1 b ∧ Forall (λ r, length r = dim2 b) p) (planes b).

(** [np.zeros((r, c), dtype=int)] and [np.zeros((r, c, d), dtype=int)]. *)
Definition np_zeros2 (r c : nat) : Matrix Z :=
  mkMatrix c (replicate r (replicate c 0%Z)).

Definition np_zeros3 (r c d : nat) : Box Z :=
  mkBox c d (replicate r (replicate c (replicate d 0%Z))).

(** [m[:, c]] read as a sequence. *)
Definition column {A} (m : Matrix A) (c : nat) : list A :=
  omap (λ r, r !! c) (rows m).

(** [np.roll(a, shift)] on one axis: numpy joins the last [shift mod n]
    entries with the first [n - shift mod n]. *)
Definition np_roll {A} (shift : Z) (a : list A) : list A :=
  match length a with
  | O => a
  | S _ as n =>
      let k := Z.to_nat (shift mod Z.of_nat n) in
      drop (n - k) a ++ take (n - k) a
  end.

(** [np.roll(m, shift, 1)]: every row rolled. *)
Definition np_roll_axis1 {A} (shift : Z) (m : Matrix A) : Matrix A :=
  mkMatrix (cols m) (np_roll shift <$> rows m).

(** The bounds of numpy's default integer dtype (int64). *)
Definition int64_min : Z := (- 2 ^ 63)%Z.
Definition int64_max : Z := (2 ^ 63 - 1)%Z.

(** Storing a float into an integer array: the value is cut toward zero. *)
Definition trunc (q : Q) : Z := Z.quot (Qnum q) (Z.pos (Qden q)).

(** [a.astype(str)] on integers, and Python's [int(s)] on a decimal literal
    with an optional minus sign (other spellings that [int] accepts, such as
    surrounding blanks, are not needed by a rule table and raise here). *)
Definition py_str (z : Z) : string := NilZero.string_of_int (Z.to_int z).

Definition astype_str (a : list Z) : list string := py_str <$> a.

Definition py_int (s : string) : result Z :=
  match NilZero.int_of_string s with
  | Some d => Ok (Z.of_int d)
  | None => Raise ValueError
  end.

(** [s.upper()] on ASCII letters. *)
Definition ascii_upper (c : ascii) : ascii :=
  let n := nat_of_ascii c in
  if (97 <=? n)%nat && (n <=? 122)%nat then ascii_of_nat (n - 32) else c.

Fixpoint upper (s : string) : string :=
  match s with
  | EmptyString => EmptyString
  | String c s' => String (ascii_upper c) (upper s')
  end.

(** Python indexing [a[i]] with a possibly negative [i]. *)
Definition py_index {A} (a : list A) (i : Z) : result A :=
  let n := Z.of_nat (length a) in
  let j := if (i <? 0)%Z then (i + n)%Z else i in
  if (0 <=? j)%Z && (j <? n)%Z then
    match a !! Z.to_nat j with
    | Some x => Ok x
    | None => Raise IndexError
    end
  else Raise IndexError.

(** ** Program state *)

Definition loc := nat.

(** A numpy array object that owns its buffer. *)
Inductive ndarray : Type :=
| Vec (d : list Z)
| Mat (m : Matrix Z).

(** A handle on array data: an array of its own, or the view [base[:, c]]
    that shares the buffer of a matrix. *)
Inductive ndref : Type :=
| Own (l : loc)
| ColumnOf (l : loc) (c : nat).

Section Program.
Context {RNG : NumpyRandom} {CALC : TECalculator} {FLT : NumpyFloat}.

Record World : Type := mkWorld {
  np_random : rng;
  heap : gmap loc ndarray;
  calc_log : list calc_event
}.

(** Computations that read and write the world and may raise. *)
Definition M (A : Type) : Type := World → result (A * World).

Definition ret {A} (a : A) : M A := λ w, Ok (a, w).

Definition bind {A B} (m : M A) (k : A → M B) : M B :=
  λ w, match m w with
       | Ok (a, w') => k a w'
       | Raise e => Raise e
       end.

Definition raise {A} (e : exn) : M A := λ _, Raise e.

Definition lift {A} (r : result A) : M A :=
  λ w, match r with Ok a => Ok (a, w) | Raise e => Raise e end.

(** What a run returns, without the world it leaves. *)
Definition returned {A} (r : result (A * World)) : result A :=
  match r with
  | Ok (a, _) => Ok a
  | Raise e => Raise e
  end.

Notation "'let*' x ':=' m 'in' k" := (bind m (λ x, k))
  (at level 10, x pattern, k at level 200).

(** [for x in xs: s = body(x, s)]. *)
Fixpoint for_each {A S} (xs : list A) (body : A → S → M S) (s : S) : M S :=
  match xs with
  | [] => ret s
  | x :: xs' => let* s' := body x s in for_each xs' body s'
  end.

(** [for i in range(n)]. *)
Definition for_range {S} (n : nat) (body : nat → S → M S) (s : S) : M S :=
  for_each (seq 0 n) body s.

(** *** The heap of numpy arrays *)

Definition alloc (o : ndarray) : M loc :=
  λ w, let l := fresh (dom (heap w)) in
       Ok (l, mkWorld (np_random w) (<[l := o]> (heap w)) (calc_log w)).

Definition set_column {A} (c : nat) (d : list A) (rs : list (list A)) : list (list A) :=
  imap (λ t r, match d !! t with Some v => <[c := v]> r | None => r end) rs.

(** The entries a handle denotes. *)
Definition np_read (r : ndref) : M (list Z) :=
  λ w, match r with
       | Own l =>
           match heap w !! l with
           | Some (Vec d) => Ok (d, w)
           | _ => Raise TypeError
           end
       | ColumnOf l c =>
           match heap w !! l with
           | Some (Mat m) => Ok (column m c, w)
           | _ => Raise TypeError
           end
       end.

(** Overwriting, in place, the entries a handle denotes; a write through a
    view lands in the matrix it was taken from. *)
Definition np_write (r : ndref) (d : list Z) : M unit :=
  λ w, match r with
       | Own l =>
           match heap w !! l with
           | Some (Vec _) =>
               Ok (tt, mkWorld (np_random w) (<[l := Vec d]> (heap w)) (calc_log w))
           | _ => Raise TypeError
           end
       | ColumnOf l c =>
           match heap w !! l with
           | Some (Mat m) =>
               Ok (tt, mkWorld (np_random w)
                         (<[l := Mat (mkMatrix (cols m) (set_column c d (rows m)))]> (heap w))
                         (calc_log w))
           | _ => Raise TypeError
           end
       end.

(** [a[i] = v] on an int64 array. *)
Definition np_setitem (r : ndref) (i : nat) (v : Z) : M unit :=
  let* d := np_read r in
  if decide (i < length d) then
    if (int64_min <=? v)%Z && (v <=? int64_max)%Z
    then np_write r (<[i := v]> d)
    else raise OverflowError
  else raise IndexError.

(** [m[:, c]], a view. *)
Definition np_column (l : loc) (c : nat) : M ndref :=
  λ w, match heap w !! l with
       | Some (Mat m) => if decide (c < cols m) then Ok (ColumnOf l c, w) else Raise IndexError
       | _ => Raise TypeError
       end.

(** [a.copy()]: a new array with the same entries. *)
Definition np_copy (r : ndref) : M ndref :=
  let* d := np_read r in
  let* l := alloc (Vec d) in
  ret (Own l).

(** [np.zeros(n, dtype=int)]. *)
Definition np_zeros (n : nat) : M ndref :=
  let* l := alloc (Vec (replicate n 0%Z)) in
  ret (Own l).

(** *** The random generator *)

(** [np.random.randint(low, high, size=n)]: a new array. *)
Definition np_random_randint (low high : Z) (n : nat) : M ndref :=
  if (low <? high)%Z then
    let* d := (λ w, let '(d, g) := randint (np_random w) low high n in
                    Ok (d, mkWorld g (heap w) (calc_log w))) in
    let* l := alloc (Vec d) in
    ret (Own l)
  else raise ValueError.

(** [np.random.shuffle(a)]: reorders [a] in place. *)
Definition np_random_shuffle (r : ndref) : M unit :=
  let* d := np_read r in
  let* d' := (λ w, let '(d', g) := shuffle (np_random w) d in
                   Ok (d', mkWorld g (heap w) (calc_log w))) in
  np_write r d'.

(** *** The calculator object *)

Definition log_event (e : calc_event) : M unit :=
  λ w, Ok (tt, mkWorld (np_random w) (heap w) (calc_log w ++ [e])).

(** [teCalc.initialise()], [teCalc.addObservations(y, x)] and
    [np.array(teCalc.computeLocalFromPreviousObservations(y, x))]; each takes
    the object's state and gives the state it leaves. *)
Definition initialise (s : calc_state) : M calc_state :=
  let* _ := log_event EvInitialise in
  ret (calc_initialise s).

Definition addObservations (s : calc_state) (y x : list Z) : M calc_state :=
  let* _ := log_event (EvAddObservations y x) in
  ret (calc_addObservations s y x).

Definition computeLocalFromPreviousObservations (s : calc_state) (y x : list Z) : M (list Q) :=
  let* _ := log_event (EvComputeLocal y x) in
  ret (calc_computeLocal s y x).

(** ** createCA *)

(** [rule[key]]. *)
Definition dict_get (rule : gmap string string) (key : string) : M string :=
  match rule !! key with
  | Some v => ret v
  | None => raise (KeyError key)
  end.

Definition list_get {A} (a : list A) (i : nat) : M A :=
  match a !! i with
  | Some x => ret x
  | None => raise IndexError
  end.

(** [ca[t] = row] on a matrix that only this function holds. *)
Definition set_row (ca : Matrix Z) (t : nat) (row : list Z) : M (Matrix Z) :=
  if decide (t < length (rows ca)) then
    if decide (length row = cols ca)
    then ret (mkMatrix (cols ca) (<[t := row]> (rows ca)))
    else raise ValueError
  else raise IndexError.

(** The body of [for i in range(len(ca_space))]. *)
Definition createCA_cell (rule : gmap string string) (ln ca_str rn : list string)
    (ca_new : ndref) (i : nat) (_ : unit) : M unit :=
  let* l := list_get ln i in
  let* c := list_get ca_str i in
  let* r := list_get rn i in
  let temp_rule := (l +:+ c +:+ r)%string in
  let* update := dict_get rule temp_rule in
  let* v := lift (py_int update) in
  np_setitem ca_new i v.

(** The body of [for t in range(timesteps)]; the loop carries the matrix [ca]
    and the array that the name [ca_space] is bound to. *)
Definition createCA_step (rule : gmap string string) (ca_new : ndref) (t : nat)
    (st : Matrix Z * ndref) : M (Matrix Z * ndref) :=
  let '(ca, ca_space) := st in
  let* cur := np_read ca_space in
  let ln := astype_str (np_roll 1 cur) in
  let rn := astype_str (np_roll (-1) cur) in
  let ca_str := astype_str cur in
  let* _ := for_range (length cur) (createCA_cell rule ln ca_str rn ca_new) tt in
  let* new := np_read ca_new in
  let* ca := set_row ca (t + 1) new in
  ret (ca, ca_new).

Definition createCA (rule : gmap string string) (timesteps n : nat) : M (Matrix Z) :=
  let* ca_space := np_random_randint 0 2 n in
  let ca := np_zeros2 (timesteps + 1) n in
  let* ca_new := np_zeros n in
  let* first := np_read ca_space in
  let* ca := set_row ca 0 first in
  let* (ca, _) := for_range timesteps (createCA_step rule ca_new) (ca, ca_space) in
  ret ca.

(** ** teCA *)

(** [m[:, c]] for a column that must exist. *)
Definition get_column (m : Matrix Z) (c : nat) : M (list Z) :=
  if decide (c < cols m) then ret (column m c) else raise IndexError.

(** The right-hand side of an assignment to a slice of [n] integer cells:
    the floats are cast to the cells' dtype, and a single value is broadcast. *)
Definition cast_to_slice (n : nat) (vals : list Q) : M (list Z) :=
  if decide (length vals = n) then ret (trunc <$> vals)
  else match vals with
       | [v] => ret (replicate n (trunc v))
       | _ => raise ValueError
       end.

(** [localTE[:, c] = np.array(vals)]. *)
Definition set_matrix_column (localTE : Matrix Z) (c : nat) (vals : list Q) : M (Matrix Z) :=
  if decide (c < cols localTE) then
    let* d := cast_to_slice (length (rows localTE)) vals in
    ret (mkMatrix (cols localTE) (set_column c d (rows localTE)))
  else raise IndexError.

(** Reading the local name [y], which is bound only once assigned. *)
Definition read_local (name : string) (v : option (list Z)) : M (list Z) :=
  match v with
  | Some a => ret a
  | None => raise (UnboundLocalError name)
  end.

(** One pass of the calculator over a source and a destination sequence;
    [JArray(JInt, 1)(a.tolist())] hands it the integers of [a] as they are. *)
Definition run_calculator (teCalc : calc_state) (y_JArray x_JArray : list Z)
    : M (list Q * calc_state) :=
  let* teCalc := initialise teCalc in
  let* teCalc := addObservations teCalc y_JArray x_JArray in
  let* vals := computeLocalFromPreviousObservations teCalc y_JArray x_JArray in
  ret (vals, teCalc).

(** The body of [for column in range(ca.shape[1])]; the loop carries the
    result matrix, the calculator object and the local name [y]. *)
Definition teCA_column (ca : Matrix Z) (neighb : string) (column_ : nat)
    (st : Matrix Z * calc_state * option (list Z))
    : M (Matrix Z * calc_state * option (list Z)) :=
  let '(localTE, teCalc, y) := st in
  let* x := get_column ca column_ in
  let* y := (if decide (neighb = "L")
             then let* v := get_column (np_roll_axis1 1 ca) column_ in ret (Some v)
             else ret y) in
  let* y := (if decide (neighb = "R")
             then let* v := get_column (np_roll_axis1 (-1) ca) column_ in ret (Some v)
             else ret y) in
  let* y_JArray := read_local "y" y in
  let x_JArray := x in
  let* (vals, teCalc) := run_calculator teCalc y_JArray x_JArray in
  let* localTE := set_matrix_column localTE column_ vals in
  ret (localTE, teCalc, y).

Definition teCA (ca : Matrix Z) (k_history : Z) (neighbor : string) : M (Matrix Z) :=
  let neighb := upper neighbor in
  let localTE := np_zeros2 (length (rows ca)) (cols ca) in
  let teCalc := calc_new 2 k_history in
  let* (localTE, _, _) :=
    for_range (cols ca) (teCA_column ca neighb) (localTE, teCalc, None) in
  ret localTE.

(** ** teCA_Box *)

Definition set_line {A} (c i : nat) (d : list A) (ps : list (list (list A)))
    : list (list (list A)) :=
  imap (λ t p, match d !! t with Some v => alter (λ r, <[i := v]> r) c p | None => p end) ps.

(** [localTE[:, c, i] = np.array(vals)]. *)
Definition set_box_line (localTE : Box Z) (c i : nat) (vals : list Q) : M (Box Z) :=
  if decide (c < dim1 localTE) then
    if decide (i < dim2 localTE) then
      let* d := cast_to_slice (length (planes localTE)) vals in
      ret (mkBox (dim1 localTE) (dim2 localTE) (set_line c i d (planes localTE)))
    else raise IndexError
  else raise IndexError.

(** The body of [for i in range(ca.shape[1])], inside the loop on [column]. *)
Definition teCA_Box_cell (ca : Matrix Z) (neighb : string) (column_ i : nat)
    (st : Box Z * calc_state * option (list Z))
    : M (Box Z * calc_state * option (list Z)) :=
  let '(localTE, teCalc, y) := st in
  let* x := get_column ca column_ in
  let* y := (if decide (neighb = "L")
             then let* v := get_column (np_roll_axis1 (Z.of_nat i) ca) column_ in ret (Some v)
             else ret y) in
  let* y := (if decide (neighb = "R")
             then let* v := get_column (np_roll_axis1 (- Z.of_nat i) ca) column_ in ret (Some v)
             else ret y) in
  let* y_JArray := read_local "y" y in
  let x_JArray := x in
  let* (vals, teCalc) := run_calculator teCalc y_JArray x_JArray in
  let* localTE := set_box_line localTE column_ i vals in
  ret (localTE, teCalc, y).

Definition teCA_Box (ca : Matrix Z) (k_history : Z) (neighbor : string) : M (Box Z) :=
  let neighb := upper neighbor in
  let localTE := np_zeros3 (length (rows ca)) (cols ca) (cols ca) in
  let teCalc := calc_new 2 k_history in
  let* (localTE, _, _) :=
    for_range (cols ca)
      (λ column_, for_range (cols ca) (teCA_Box_cell ca neighb column_))
      (localTE, teCalc, None) in
  ret localTE.

(** ** teCA_null *)

(** [ca.shape] and the entries of the matrix at [ca]. *)
Definition np_load (ca : loc) : M (Matrix Z) :=
  λ w, match heap w !! ca with
       | Some (Mat m) => Ok (m, w)
       | _ => Raise TypeError
       end.

(** The body of [for column in range(ca.shape[1])] in trial [i]. *)
Definition teCA_null_column (ca : loc) (i column_ : nat) (st : Box Z * calc_state)
    : M (Box Z * calc_state) :=
  let '(localTE, teCalc) := st in
  let* x_view := np_column ca column_ in
  let* x := np_copy x_view in
  let* y_view := np_column ca column_ in
  let* y := np_copy y_view in
  let* _ := np_random_shuffle y in
  let* y_JArray := np_read y in
  let* x_JArray := np_read x in
  let* (vals, teCalc) := run_calculator teCalc y_JArray x_JArray in
  let* localTE := set_box_line localTE column_ i vals in
  ret (localTE, teCalc).

(** The two nested loops: the array of all trial results. *)
Definition teCA_null_trials (ca : loc) (k_history : Z) (numTrials : nat) : M (Box Z) :=
  let* m := np_load ca in
  let localTE := np_zeros3 (length (rows m)) (cols m) numTrials in
  let teCalc := calc_new 2 k_history in
  let* (localTE, _) :=
    for_range numTrials
      (λ i, for_range (cols m) (teCA_null_column ca i))
      (localTE, teCalc) in
  ret localTE.

(** A reduction along the last axis. *)
Definition reduce_axis2 {A B} (f : list A → B) (b : Box A) : Matrix B :=
  mkMatrix (dim1 b) ((λ p : list (list A), f <$> p) <$> planes b).

Definition list_max (a : list Z) : Z :=
  match a with
  | [] => 0%Z
  | v :: a' => foldl Z.max v a'
  end.

(** [np.max(b, axis=2)]: there is no maximum along an axis of length 0. *)
Definition np_max_axis2 (b : Box Z) : M (Matrix Z) :=
  if decide (dim2 b = 0) then raise ValueError
  else ret (reduce_axis2 list_max b).

Definition teCA_null (ca : loc) (k_history : Z) (numTrials : nat)
    : M (Matrix float64 * Matrix float64 * Matrix Z) :=
  let* localTE := teCA_null_trials ca k_history numTrials in
  let localTE_null := reduce_axis2 np_mean localTE in
  let localTE_std := reduce_axis2 np_std localTE in
  let* localTE_max := np_max_axis2 localTE in
  ret (localTE_null, localTE_std, localTE_max).

End Program.

(** ** greatestInfluence *)

Section GreatestInfluence.
(** The entries of [teBox] and their order [x > y]. *)
Context {A : Type} (gtb : A → A → bool).

Definition rbind {X Y} (r : result X) (k : X → result Y) : result Y :=
  match r with
  | Ok x => k x
  | Raise e => Raise e
  end.

(** [np.argmax] on a flattened array: the first position of a largest entry. *)
Fixpoint argmax_from (best : A) (best_i i : nat) (a : list A) : nat :=
  match a with
  | [] => best_i
  | x :: a' =>
      if gtb x best then argmax_from x i (S i) a'
      else argmax_from best best_i (S i) a'
  end.

Definition np_argmax (a : list A) : result nat :=
  match a with
  | [] => Raise ValueError
  | x :: a' => Ok (argmax_from x 0 1 a')
  end.

(** [np.unravel_index(index, (d1, d2))]. *)
Definition np_unravel_index (index : nat) (shp : nat * nat) : result (nat * nat) :=
  let '(d1, d2) := shp in
  if decide (index < d1 * d2) then Ok (index / d2, index mod d2)
  else Raise ValueError.

(** [np.arange(0, n, dtype=int)]. *)
Definition np_arange (n : nat) : list Z := Z.of_nat <$> seq 0 n.

(** [a[i] += 1]. *)
Definition increment (a : list Z) (i : Z) : result (list Z) :=
  rbind (py_index a i) (λ v,
    let n := Z.of_nat (length a) in
    let j := if (i <? 0)%Z then (i + n)%Z else i in
    Ok (<[Z.to_nat j := (v + 1)%Z]> a)).

(** The body of [for i in range(teBox.shape[0])]. *)
Definition greatestInfluence_step (teBox : Box A) (indicies : list Z) (i : nat)
    (towns : list Z) : result (list Z) :=
  match planes teBox !! i with
  | None => Raise IndexError
  | Some plane =>
      rbind (np_argmax (concat plane)) (λ index,
      rbind (np_unravel_index index (dim1 teBox, dim2 teBox)) (λ index,
      rbind (py_index indicies (Z.of_nat i - Z.of_nat index.2)) (λ town,
      increment towns town)))
  end.

Fixpoint greatestInfluence_loop (teBox : Box A) (indicies : list Z) (range_ : list nat)
    (towns : list Z) : result (list Z) :=
  match range_ with
  | [] => Ok towns
  | i :: rest =>
      rbind (greatestInfluence_step teBox indicies i towns)
            (greatestInfluence_loop teBox indicies rest)
  end.

Definition greatestInfluence (teBox : Box A) : result (list Z * list Z) :=
  let towns := replicate (length (planes teBox)) 0%Z in
  let indicies := np_arange 226 in
  rbind (greatestInfluence_loop teBox indicies (seq 0 (length (planes teBox))) towns)
        (λ towns, Ok (indicies, towns)).

End GreatestInfluence.

(** ** Concrete instances, to run the model *)

(** A linear congruential generator; [shuffle] turns the array by an amount
    read from the state. *)
Definition lcg_next (g : Z) : Z := ((g * 1103515245 + 12345) mod 2 ^ 31)%Z.

Fixpoint lcg_draw (g low high : Z) (n : nat) : list Z * Z :=
  match n with
  | O => ([], g)
  | S n' =>
      let g' := lcg_next g in
      let '(d, g'') := lcg_draw g' low high n' in
      ((low + (g' / 65536) mod (high - low))%Z :: d, g'')
  end.

Definition lcg_shuffle (g : Z) (a : list Z) : list Z * Z :=
  let g' := lcg_next g in
  (rotate (Z.to_nat ((g' / 65536) mod Z.of_nat (S (length a)))) a, g').

#[export] Instance lcg : NumpyRandom := {
  rng := Z;
  randint := lcg_draw;
  shuffle := lcg_shuffle
}.

(** A calculator of history 1 that keeps the observed transitions (source,
    next, past) and returns, at each position after the first, the ratio
    [p(next | source, past) / p(next | past)] of the observed frequencies
    minus one, where the real calculator takes its logarithm. *)
Definition transitions (y x : list Z) : list (Z * Z * Z) :=
  zip (zip y (drop 1 x)) x.

Definition count (P : Z * Z * Z → bool) (obs : list (Z * Z * Z)) : Z :=
  Z.of_nat (length (filter (λ o, P o = true) obs)).

Definition ratio_at (obs : list (Z * Z * Z)) (source next past : Z) : Q :=
  let snp := count (λ o, (o.1.1 =? source)%Z && (o.1.2 =? next)%Z && (o.2 =? past)%Z) obs in
  let sp := count (λ o, (o.1.1 =? source)%Z && (o.2 =? past)%Z) obs in
  let np := count (λ o, (o.1.2 =? next)%Z && (o.2 =? past)%Z) obs in
  let p := count (λ o, (o.2 =? past)%Z) obs in
  Qred ((snp * p - sp * np)%Z # Z.to_pos (sp * np)).

Definition ratio_local (obs : list (Z * Z * Z)) (y x : list Z) : list Q :=
  imap (λ t next,
          match t with
          | O => 0%Q
          | S t' => ratio_at obs (default 0%Z (y !! t')) next (default 0%Z (x !! t'))
          end) x.

#[export] Instance ratio_calculator : TECalculator := {
  calc_state := list (Z * Z * Z);
  calc_new := λ _ _, [];
  calc_initialise := λ _, [];
  calc_addObservations := λ obs y x, obs ++ transitions y x;
  calc_computeLocal := ratio_local
}.

(** Rational stand-ins for numpy's floats: the exact mean, and the standard
    deviation (the square root of the mean squared distance to the mean) cut
    after nine decimals. *)
Definition mean_Q (a : list Z) : Q :=
  foldr Z.add 0%Z a # Pos.of_nat (length a).

Definition std_Q (a : list Z) : Q :=
  let n := Z.of_nat (length a) in
  let s := foldr Z.add 0%Z a in
  let ss := foldr Z.add 0%Z ((λ v, (n * v - s) ^ 2)%Z <$> a) in
  Z.sqrt (ss * n * 10 ^ 18)%Z # (Pos.of_nat (length a * length a) * 10 ^ 9)%positive.

#[export] Instance exact_float : NumpyFloat := {
  float64 := Q;
  np_mean := mean_Q;
  np_std := std_Q
}.

(** Sample inputs: rule 90, a world with generator state 42 and an empty heap,
    and a five-step history of two cells. *)
Definition rule90 : gmap string string :=
  list_to_map [("000", "0"); ("001", "1"); ("010", "0"); ("011", "1");
               ("100", "1"); ("101", "0"); ("110", "1"); ("111", "0")]%string.

Definition world0 : World (RNG := lcg) := mkWorld (RNG := lcg) 42%Z ∅ [].

Definition ca52 : Matrix Z := mkMatrix 2 [[0; 1]; [1; 0]; [0; 0]; [0; 1]; [1; 0]]%Z.

(** The same world with that history stored at location 7. *)
Definition world1 : World (RNG := lcg) :=
  mkWorld (RNG := lcg) 42%Z {[ 7 := Mat ca52 ]} [].

(** A world with the same generator state as [world1], other arrays, the
    history at location 11 and a log that is not empty. *)
Definition world2 : World (RNG := lcg) :=
  mkWorld (RNG := lcg) 42%Z {[ 3 := Vec [9%Z]; 11 := Mat ca52 ]} [EvInitialise].

(** A calculator that answers with no value at all, and a matrix of two rows
    and no column. *)
Definition terse_calculator : TECalculator := {|
  calc_state := unit;
  calc_new := λ _ _, tt;
  calc_initialise := λ s, s;
  calc_addObservations := λ s _ _, s;
  calc_computeLocal := λ _ _ _, []
|}.

Definition ca20 : Matrix Z := mkMatrix 0 [[]; []].

(** A box of shape [(n, n, n)] given by its entries. *)
Definition tabulate_box (n : nat) (f : nat → nat → nat → Z) : Box Z :=
  mkBox n n ((λ i, (λ c, (λ j, f i c j) <$> seq 0 n) <$> seq 0 n) <$> seq 0 n).

Definition sample_box : Box Z :=
  tabulate_box 226 (λ i c j, Z.of_nat ((i * c + 3 * j) mod 7)).

(** A small box: the largest entry of plane [i] is in row 0, column [i]. *)
Definition diagonal_box : Box Z :=
  tabulate_box 3 (λ i c j, if (c =? 0) && (j =? i) then 1%Z else 0%Z).

(** A history of two cells, the first of which never changes, and a world
    that stores it at location 7. *)
Definition ca42 : Matrix Z := mkMatrix 2 [[0; 1]; [0; 0]; [0; 1]; [0; 1]]%Z.

Definition world3 : World (RNG := lcg) :=
  mkWorld (RNG := lcg) 42%Z {[ 7 := Mat ca42 ]} [].

(** ** The update of an elementary cellular automaton, as specified *)

(** The value that the rule table gives a neighbourhood. *)
Definition rule_value (rule : gmap string string) (l c r : Z) : option Z :=
  v ← rule !! (py_str l +:+ py_str c +:+ py_str r)%string;
  match py_int v with
  | Ok z => Some z
  | Raise _ => None
  end.

(** Cell [i] of the row that follows [prev]: the rule applied to the cell and
    its two neighbours, the row closing into a ring. *)
Definition eca_next (rule : gmap string string) (prev : list Z) (i : nat) : option Z :=
  let n := Z.of_nat (length prev) in
  l ← prev !! Z.to_nat ((Z.of_nat i - 1) mod n);
  c ← prev !! i;
  r ← prev !! Z.to_nat ((Z.of_nat i + 1) mod n);
  rule_value rule l c r.

Definition eca_row (rule : gmap string string) (prev : list Z) : list Z :=
  (λ i, default 0%Z (eca_next rule prev i)) <$> seq 0 (length prev).

(** Row [t] of the automaton started from [init]. *)
Definition eca_rows (rule : gmap string string) (init : list Z) (t : nat) : list Z :=
  Nat.iter t (eca_row rule) init.

Definition binary_keys : list string :=
  ["000"; "001"; "010"; "011"; "100"; "101"; "110"; "111"]%string.

(** A rule dictionary: each of the eight neighbourhoods is mapped to "0" or "1". *)
Definition rule_table (rule : gmap string string) : Prop :=
  ∀ key, key ∈ binary_keys →
    rule !! key = Some "0"%string ∨ rule !! key = Some "1"%string.

(** ** The calculator, as the program uses it *)

Section Calculator.
Context {CALC : TECalculator}.

(** The local transfer entropy from [y] to [x] with history [k]: what a
    calculator made for two states returns once initialised and fed the pair. *)
Definition local_te (k : Z) (y x : list Z) : list Q :=
  calc_computeLocal
    (calc_addObservations (calc_initialise (calc_new 2 k)) y x) y x.

(** The calculator answers with one value per position of the destination. *)
Definition per_position : Prop :=
  ∀ s y x, length (calc_computeLocal s y x) = length x.

(** [initialise] forgets the observations added so far. *)
Definition resets : Prop :=
  (∀ s y x, calc_initialise (calc_addObservations s y x) = calc_initialise s)
  ∧ (∀ s, calc_initialise (calc_initialise s) = calc_initialise s).

End Calculator.

Definition binary (a : list Z) : Prop := Forall (λ v, v = 0%Z ∨ v = 1%Z) a.

(** ** The shuffles of the null test, in the order they are drawn *)

Section Shuffles.
Context {RNG : NumpyRandom}.

(** The generator after [j] passes of the null test over the columns of [m],
    which are visited in turn, trial after trial. *)
Fixpoint null_rng (m : Matrix Z) (g : rng) (j : nat) : rng :=
  match j with
  | O => g
  | S j' => (shuffle (null_rng m g j') (column m (j' mod cols m))).2
  end.

(** The source of trial [i] for column [c]: that column, shuffled. *)
Definition null_source (m : Matrix Z) (g : rng) (i c : nat) : list Z :=
  (shuffle (null_rng m g (i * cols m + c)) (column m c)).1.

(** [np.random.shuffle] only reorders. *)
Definition shuffle_permutes : Prop :=
  ∀ g a, (shuffle g a).1 ≡ₚ a.

End Shuffles.

(** The three calls of one pass over a source [y] and a destination [x]. *)
Definition pass_events (y x : list Z) : list calc_event :=
  [EvInitialise; EvAddObservations y x; EvComputeLocal y x].

(** The direction that a neighbour names: "L" looks one way, "R" the other. *)
Definition neighbour_sign (neighbor : string) : Z :=
  if decide (upper neighbor = "L"%string) then 1%Z else (-1)%Z.

(** The column that lies [shift] places to the left of column [c], on a ring
    of [n] columns. *)
Definition ring_index (n c : nat) (shift : Z) : nat :=
  Z.to_nat ((Z.of_nat c - shift) mod Z.of_nat n).

(** [b[:, c, i]] read as a sequence, and entry [(t, c, i)] of a box. *)
Definition line {A} (b : Box A) (c i : nat) : list A :=
  omap (λ p, p !! c ≫= (.!! i)) (planes b).

Definition entry {A} (b : Box A) (t c i : nat) : option A :=
  (planes b !! t ≫= (.!! c)) ≫= (.!! i).

(** Entry [(t, i)] of a matrix. *)
Definition cell {A} (m : Matrix A) (t i : nat) : option A :=
  rows m !! t ≫= (.!! i).

(** ** The influence summary, as specified *)

Section Influence.
Context {A : Type} (gtb : A → A → bool).

(** The second coordinate of the place where the plane [teBox[i, :, :]] is
    largest. *)
Definition argmax_column (teBox : Box A) (i : nat) : nat :=
  match planes teBox !! i with
  | Some plane =>
      match np_argmax gtb (concat plane) with
      | Ok index => index mod dim2 teBox
      | Raise _ => 0
      end
  | None => 0
  end.

(** The town that row [i] singles out: [(i - j) mod 226] for the offset [j]
    of its largest entry. *)
Definition source_town (teBox : Box A) (i : nat) : nat :=
  Z.to_nat ((Z.of_nat i - Z.of_nat (argmax_column teBox i)) mod 226).

(** How many of the rows in [range_] single out [town]. *)
Definition votes (teBox : Box A) (range_ : list nat) (town : nat) : nat :=
  length (filter (λ i, source_town teBox i = town) range_).

End Influence.

Definition sum_Z (a : list Z) : Z := foldr Z.add 0%Z a.

(** The calls that the null test makes, trial after trial. *)
Definition null_events {RNG : NumpyRandom} (m : Matrix Z) (g : rng) (numTrials : nat)
    : list calc_event :=
  concat ((λ i, concat ((λ c, pass_events (null_source m g i c) (column m c))
                          <$> seq 0 (cols m)))
          <$> seq 0 numTrials).

(** * Properties *)

(** ** Arrays *)

Lemma np_roll_length {A} (s : Z) (a : list A) : length (np_roll s a) = length a.
Proof.
  unfold np_roll. destruct (length a) as [|m] eqn:E; [done|].
  rewrite length_app, length_drop, length_take. lia.
Qed.

(** Entry [i] of [np.roll(a, s)] is entry [(i - s) mod n] of [a]. *)
Lemma np_roll_lookup {A} (s : Z) (a : list A) (i : nat) :
  i < length a →
  np_roll s a !! i = a !! Z.to_nat ((Z.of_nat i - s) mod Z.of_nat (length a)).
Proof.
  intros Hi. unfold np_roll.
  destruct (length a) as [|m] eqn:E; [lia|].
  set (n := S m) in *.
  assert (Hk : (0 ≤ s mod Z.of_nat n < Z.of_nat n)%Z) by (apply Z.mod_pos_bound; lia).
  set (k := Z.to_nat (s mod Z.of_nat n)).
  assert (Hkn : k < n) by (unfold k; lia).
  assert (Hmod : ((Z.of_nat i - s) mod Z.of_nat n
                  = (Z.of_nat i - Z.of_nat k) mod Z.of_nat n)%Z).
  { unfold k. rewrite Z2Nat.id by lia. by rewrite Zminus_mod_idemp_r. }
  rewrite Hmod.
  destruct (decide (i < k)) as [Hlt|Hge].
  - rewrite lookup_app_l by (rewrite length_drop; lia).
    rewrite lookup_drop. f_equal.
    replace ((Z.of_nat i - Z.of_nat k) mod Z.of_nat n)%Z
      with (Z.of_nat i - Z.of_nat k + Z.of_nat n)%Z; [lia|].
    apply Z.mod_unique with (-1)%Z; lia.
  - rewrite lookup_app_r by (rewrite length_drop; lia).
    rewrite length_drop, lookup_take_lt by lia. f_equal.
    rewrite Z.mod_small by lia. lia.
Qed.

Lemma column_length {A} (m : Matrix A) (c : nat) :
  wf_matrix m → c < cols m → length (column m c) = length (rows m).
Proof.
  destruct m as [n rs]. unfold wf_matrix, column. simpl. intros Hwf Hc.
  induction Hwf as [|r rs Hr _ IH]; [done|]. simpl.
  destruct (r !! c) eqn:E; simpl; [f_equal; exact IH|].
  apply lookup_ge_None in E. lia.
Qed.

Lemma column_lookup {A} (m : Matrix A) (c t : nat) :
  wf_matrix m → c < cols m →
  column m c !! t = rows m !! t ≫= (.!! c).
Proof.
  destruct m as [n rs]. unfold wf_matrix, column. simpl. intros Hwf Hc. revert t.
  induction Hwf as [|r rs Hr _ IH]; intros t; [done|]. simpl.
  destruct (r !! c) eqn:E; [|apply lookup_ge_None in E; lia].
  destruct t as [|t]; simpl; [done|]. apply IH.
Qed.

Lemma set_column_length {A} (c : nat) (d : list A) (rs : list (list A)) :
  length (set_column c d rs) = length rs.
Proof. unfold set_column. by rewrite length_imap. Qed.

Lemma set_column_lookup {A} (c : nat) (d : list A) (rs : list (list A)) (t : nat) :
  set_column c d rs !! t
  = (λ r, match d !! t with Some v => <[c := v]> r | None => r end) <$> rs !! t.
Proof. unfold set_column. by rewrite list_lookup_imap. Qed.

Lemma set_column_wf {A} (c : nat) (d : list A) (m : Matrix A) :
  wf_matrix m → wf_matrix (mkMatrix (cols m) (set_column c d (rows m))).
Proof.
  unfold wf_matrix. simpl. intros Hwf.
  apply Forall_lookup. intros t r Ht.
  rewrite set_column_lookup in Ht.
  destruct (rows m !! t) as [r0|] eqn:E; simplify_eq/=.
  eapply Forall_lookup in Hwf; [|done].
  destruct (d !! t); by rewrite ?length_insert.
Qed.

(** After [m[:, c] = d], column [c] is [d] and the other columns are as before. *)
Lemma column_set_column_eq {A} (c : nat) (d : list A) (m : Matrix A) :
  wf_matrix m → c < cols m → length d = length (rows m) →
  column (mkMatrix (cols m) (set_column c d (rows m))) c = d.
Proof.
  intros Hwf Hc Hd. apply list_eq. intros t.
  rewrite column_lookup; [|by apply set_column_wf|done]. simpl.
  rewrite set_column_lookup.
  destruct (rows m !! t) as [r|] eqn:E; simpl.
  - eapply Forall_lookup in Hwf; [|done].
    destruct (d !! t) as [v|] eqn:Ed.
    + rewrite list_lookup_insert_eq; [done|lia].
    + apply lookup_ge_None in Ed. apply lookup_lt_Some in E. lia.
  - apply lookup_ge_None in E. symmetry. apply lookup_ge_None. lia.
Qed.

Lemma column_set_column_ne {A} (c c' : nat) (d : list A) (m : Matrix A) :
  wf_matrix m → c' < cols m → c ≠ c' →
  column (mkMatrix (cols m) (set_column c d (rows m))) c' = column m c'.
Proof.
  intros Hwf Hc Hne. apply list_eq. intros t.
  rewrite !column_lookup; [|done|done|by apply set_column_wf|done]. simpl.
  rewrite set_column_lookup.
  destruct (rows m !! t) as [r|] eqn:E; simpl; [|done].
  destruct (d !! t); [|done]. by rewrite list_lookup_insert_ne.
Qed.

Lemma np_zeros2_wf (r c : nat) : wf_matrix (np_zeros2 r c).
Proof.
  unfold wf_matrix, np_zeros2. simpl.
  apply Forall_replicate. by rewrite length_replicate.
Qed.

Lemma np_roll_axis1_wf {A} (s : Z) (m : Matrix A) :
  wf_matrix m → wf_matrix (np_roll_axis1 s m).
Proof.
  unfold wf_matrix, np_roll_axis1. simpl. intros Hwf.
  apply Forall_fmap. eapply Forall_impl; [done|].
  intros r Hr. simpl. by rewrite np_roll_length.
Qed.

(** Column [c] of [np.roll(m, s, 1)] is column [(c - s) mod n] of [m]. *)
Lemma column_np_roll_axis1 {A} (s : Z) (m : Matrix A) (c : nat) :
  wf_matrix m → c < cols m →
  column (np_roll_axis1 s m) c = column m (ring_index (cols m) c s).
Proof.
  intros Hwf Hc. unfold ring_index.
  assert (Hb : (0 ≤ (Z.of_nat c - s) mod Z.of_nat (cols m) < Z.of_nat (cols m))%Z)
    by (apply Z.mod_pos_bound; lia).
  apply list_eq. intros t.
  rewrite !column_lookup; [|done|lia|by apply np_roll_axis1_wf|done].
  simpl. rewrite list_lookup_fmap.
  destruct (rows m !! t) as [r|] eqn:E; simpl; [|done].
  eapply Forall_lookup in Hwf; [|done].
  rewrite np_roll_lookup by lia. by rewrite Hwf.
Qed.

(** ** Loops *)

Section Loops.
Context {RNG : NumpyRandom} {CALC : TECalculator} {FLT : NumpyFloat}.

Lemma bind_ok {A B} (m : M A) (k : A → M B) (w w' : World) (a : A) :
  m w = Ok (a, w') → bind m k w = k a w'.
Proof. unfold bind. by intros ->. Qed.

Lemma bind_raise {A B} (m : M A) (k : A → M B) (w : World) (e : exn) :
  m w = Raise e → bind m k w = Raise e.
Proof. unfold bind. by intros ->. Qed.

(** A loop that keeps [I]: if [I 0] holds at the start and every pass takes
    [I i] to [I (S i)] without raising, the loop ends in [I n]. *)
Lemma for_range_inv {S} (I : nat → S → World → Prop) (n : nat)
    (body : nat → S → M S) (s : S) (w : World) :
  I 0 s w →
  (∀ i s w, i < n → I i s w →
     ∃ s' w', body i s w = Ok (s', w') ∧ I (Datatypes.S i) s' w') →
  ∃ s' w', for_range n body s w = Ok (s', w') ∧ I n s' w'.
Proof.
  unfold for_range. intros H0 Hstep.
  assert (G : ∀ k a s w, a + k = n → I a s w →
            ∃ s' w', for_each (seq a k) body s w = Ok (s', w') ∧ I n s' w').
  { induction k as [|k IH]; intros a s0 w0 Ha HI; simpl.
    - replace n with a by lia. by exists s0, w0.
    - destruct (Hstep a s0 w0) as (s1 & w1 & Hb & HI1); [lia|done|].
      rewrite (bind_ok _ _ _ _ _ Hb). apply IH; [lia|done]. }
  by apply (G n 0).
Qed.

(** A loop whose first pass raises. *)
Lemma for_range_raise {S} (n : nat) (body : nat → S → M S) (s : S) (w : World) (e : exn) :
  0 < n → body 0 s w = Raise e → for_range n body s w = Raise e.
Proof.
  unfold for_range. destruct n as [|n]; [lia|]. intros _ Hb. simpl.
  by rewrite (bind_raise _ _ _ _ Hb).
Qed.

End Loops.

(** ** createCA *)

Lemma rule_value_binary (rule : gmap string string) (l c r : Z) :
  rule_table rule →
  (l = 0 ∨ l = 1)%Z → (c = 0 ∨ c = 1)%Z → (r = 0 ∨ r = 1)%Z →
  ∃ u v, rule !! (py_str l +:+ py_str c +:+ py_str r)%string = Some u
         ∧ py_int u = Ok v ∧ rule_value rule l c r = Some v ∧ (v = 0 ∨ v = 1)%Z.
Proof.
  intros Hrule Hl Hc Hr. unfold rule_value.
  assert (Hkey : (py_str l +:+ py_str c +:+ py_str r)%string ∈ binary_keys).
  { unfold binary_keys.
    destruct Hl as [-> | ->], Hc as [-> | ->], Hr as [-> | ->];
      vm_compute; repeat first [apply list_elem_of_here | apply list_elem_of_further]. }
  destruct (Hrule _ Hkey) as [E|E]; rewrite E; simpl.
  - exists "0"%string, 0%Z. auto.
  - exists "1"%string, 1%Z. auto.
Qed.

Lemma binary_lookup (a : list Z) (i : nat) (v : Z) :
  binary a → a !! i = Some v → (v = 0 ∨ v = 1)%Z.
Proof. intros Ha Hi. eapply Forall_lookup in Ha; [|done]. done. Qed.

(** On a binary row and a rule table, every cell has a next value, 0 or 1. *)
Lemma eca_next_binary (rule : gmap string string) (prev : list Z) (i : nat) :
  rule_table rule → binary prev → i < length prev →
  ∃ v, eca_next rule prev i = Some v ∧ (v = 0 ∨ v = 1)%Z.
Proof.
  intros Hrule Hbin Hi. unfold eca_next.
  set (n := Z.of_nat (length prev)).
  assert (Hl : (0 ≤ (Z.of_nat i - 1) mod n < n)%Z) by (apply Z.mod_pos_bound; lia).
  assert (Hr : (0 ≤ (Z.of_nat i + 1) mod n < n)%Z) by (apply Z.mod_pos_bound; lia).
  destruct (lookup_lt_is_Some_2 prev (Z.to_nat ((Z.of_nat i - 1) mod n))) as [l El]; [lia|].
  destruct (lookup_lt_is_Some_2 prev i) as [c Ec]; [lia|].
  destruct (lookup_lt_is_Some_2 prev (Z.to_nat ((Z.of_nat i + 1) mod n))) as [r Er]; [lia|].
  rewrite El, Ec, Er. simpl.
  destruct (rule_value_binary rule l c r) as (u & v & _ & _ & Hv & Hb);
    eauto using binary_lookup.
Qed.

Lemma eca_row_length (rule : gmap string string) (prev : list Z) :
  length (eca_row rule prev) = length prev.
Proof. unfold eca_row. by rewrite length_fmap, length_seq. Qed.

Lemma eca_row_lookup (rule : gmap string string) (prev : list Z) (i : nat) :
  rule_table rule → binary prev → i < length prev →
  eca_row rule prev !! i = eca_next rule prev i.
Proof.
  intros Hrule Hbin Hi. unfold eca_row.
  rewrite list_lookup_fmap, lookup_seq_lt by done. simpl.
  destruct (eca_next_binary rule prev i) as (v & -> & _); done.
Qed.

Lemma eca_row_binary (rule : gmap string string) (prev : list Z) :
  rule_table rule → binary prev → binary (eca_row rule prev).
Proof.
  intros Hrule Hbin. apply Forall_lookup. intros i v Hi.
  assert (Hlt : i < length prev).
  { apply lookup_lt_Some in Hi. by rewrite eca_row_length in Hi. }
  rewrite eca_row_lookup in Hi by done.
  destruct (eca_next_binary rule prev i) as (v' & E & Hv); [done..|]. congruence.
Qed.

Lemma eca_rows_length (rule : gmap string string) (init : list Z) (t : nat) :
  length (eca_rows rule init t) = length init.
Proof.
  unfold eca_rows. induction t as [|t IH]; simpl; [done|].
  by rewrite eca_row_length.
Qed.

Lemma eca_rows_binary (rule : gmap string string) (init : list Z) (t : nat) :
  rule_table rule → binary init → binary (eca_rows rule init t).
Proof.
  intros Hrule Hbin. unfold eca_rows. induction t as [|t IH]; simpl; [done|].
  by apply eca_row_binary.
Qed.

Section CreateCA.
Context {RNG : NumpyRandom}.

(** One pass of the inner loop writes the next value of cell [i] into the
    array [ca_new], whatever else is bound to that array. *)
Lemma createCA_cell_ok (rule : gmap string string) (cur d : list Z) (l : loc)
    (i : nat) (w : World) :
  rule_table rule → binary cur → i < length cur →
  heap w !! l = Some (Vec d) → length d = length cur →
  ∃ v, eca_next rule cur i = Some v ∧
    createCA_cell rule (astype_str (np_roll 1 cur)) (astype_str cur)
      (astype_str (np_roll (-1) cur)) (Own l) i tt w
    = Ok (tt, mkWorld (np_random w) (<[l := Vec (<[i := v]> d)]> (heap w)) (calc_log w)).
Proof.
  intros Hrule Hbin Hi Hl Hd.
  set (n := Z.of_nat (length cur)).
  assert (Hlb : (0 ≤ (Z.of_nat i - 1) mod n < n)%Z) by (apply Z.mod_pos_bound; lia).
  assert (Hrb : (0 ≤ (Z.of_nat i + 1) mod n < n)%Z) by (apply Z.mod_pos_bound; lia).
  destruct (lookup_lt_is_Some_2 cur (Z.to_nat ((Z.of_nat i - 1) mod n))) as [lv El]; [lia|].
  destruct (lookup_lt_is_Some_2 cur i) as [cv Ec]; [lia|].
  destruct (lookup_lt_is_Some_2 cur (Z.to_nat ((Z.of_nat i + 1) mod n))) as [rv Er]; [lia|].
  destruct (rule_value_binary rule lv cv rv) as (u & v & Hu & Hint & Hv & Hb);
    eauto using binary_lookup.
  exists v. split.
  { unfold eca_next. fold n. rewrite El, Ec, Er. done. }
  unfold createCA_cell, astype_str, list_get.
  rewrite !list_lookup_fmap, !np_roll_lookup by done. fold n.
  replace (Z.of_nat i - -1)%Z with (Z.of_nat i + 1)%Z by lia.
  rewrite El, Ec, Er. simpl.
  unfold bind at 1; unfold ret at 1.
  unfold bind at 1; unfold ret at 1.
  unfold bind at 1; unfold ret at 1.
  unfold bind at 1, dict_get. rewrite Hu. unfold ret at 1.
  unfold bind at 1, lift. rewrite Hint.
  unfold np_setitem, bind, np_read. rewrite Hl.
  rewrite decide_True by lia.
  assert (Hrange : (int64_min <=? v)%Z && (v <=? int64_max)%Z = true).
  { destruct Hb as [-> | ->]; done. }
  rewrite Hrange. unfold np_write. by rewrite Hl.
Qed.

Lemma insert_take_drop {A} (row d : list A) (i : nat) (v : A) :
  row !! i = Some v → i < length d →
  <[i := v]> (take i row ++ drop i d) = take (S i) row ++ drop (S i) d.
Proof.
  intros Hv Hi.
  assert (Hlen : length (take i row) = i).
  { rewrite length_take. apply lookup_lt_Some in Hv. lia. }
  rewrite insert_app_r_alt by lia. rewrite Hlen, Nat.sub_diag.
  destruct (lookup_lt_is_Some_2 d i Hi) as [x Hx].
  rewrite (drop_S _ _ _ Hx). simpl.
  rewrite (take_S_r _ _ _ Hv). by rewrite <- app_assoc.
Qed.

(** The whole inner loop: [ca_new] ends holding the next row of [cur], and
    nothing else in the world moves. *)
Lemma createCA_inner_ok (rule : gmap string string) (cur d : list Z) (l : loc) (w : World) :
  rule_table rule → binary cur →
  heap w !! l = Some (Vec d) → length d = length cur →
  for_range (length cur)
    (createCA_cell rule (astype_str (np_roll 1 cur)) (astype_str cur)
       (astype_str (np_roll (-1) cur)) (Own l)) tt w
  = Ok (tt, mkWorld (np_random w) (<[l := Vec (eca_row rule cur)]> (heap w)) (calc_log w)).
Proof.
  intros Hrule Hbin Hl Hd.
  set (row := eca_row rule cur).
  destruct (for_range_inv
    (λ i (_ : unit) w', w' = mkWorld (np_random w)
        (<[l := Vec (take i row ++ drop i d)]> (heap w)) (calc_log w))
    (length cur)
    (createCA_cell rule (astype_str (np_roll 1 cur)) (astype_str cur)
       (astype_str (np_roll (-1) cur)) (Own l)) tt w) as (s' & w' & Hrun & Hw').
  - simpl. rewrite drop_0, insert_id by done. by destruct w.
  - intros i [] wi Hi ->.
    destruct (createCA_cell_ok rule cur (take i row ++ drop i d) l i
                (mkWorld (np_random w)
                   (<[l := Vec (take i row ++ drop i d)]> (heap w)) (calc_log w)))
      as (v & Hv & Hstep); try done.
    + simpl. by rewrite lookup_insert_eq.
    + rewrite length_app, length_take, length_drop.
      unfold row. rewrite eca_row_length. lia.
    + exists tt. eexists. split; [exact Hstep|]. simpl.
      rewrite insert_insert_eq. rewrite insert_take_drop; [done| |lia].
      unfold row. by rewrite eca_row_lookup.
  - rewrite Hrun. destruct s'. rewrite Hw'. repeat f_equal.
    rewrite take_ge, drop_ge; [by rewrite app_nil_r|lia|].
    unfold row. rewrite eca_row_length. lia.
Qed.

Lemma fresh_loc_None (h : gmap loc ndarray) : h !! fresh (dom h) = None.
Proof. apply not_elem_of_dom, is_fresh. Qed.

(** One pass of the outer loop, started with [ca_space] bound to an array that
    holds [cur]: row [t + 1] of [ca] becomes the next row, which is left in
    [ca_new], and [ca_space] is bound to [ca_new]. *)
Lemma createCA_step_ok (rule : gmap string string) (ca : Matrix Z) (cur d : list Z)
    (l0 l1 : loc) (t : nat) (w : World) :
  rule_table rule → binary cur →
  heap w !! l0 = Some (Vec cur) → heap w !! l1 = Some (Vec d) →
  length d = length cur → length cur = cols ca → t + 1 < length (rows ca) →
  createCA_step rule (Own l1) t (ca, Own l0) w
  = Ok ((mkMatrix (cols ca) (<[t + 1 := eca_row rule cur]> (rows ca)), Own l1),
        mkWorld (np_random w) (<[l1 := Vec (eca_row rule cur)]> (heap w)) (calc_log w)).
Proof.
  intros Hrule Hbin Hl0 Hl1 Hd Hcols Ht.
  unfold createCA_step.
  rewrite (bind_ok _ _ w w cur) by (unfold np_read; by rewrite Hl0).
  rewrite (bind_ok _ _ _ _ _ (createCA_inner_ok rule cur d l1 w Hrule Hbin Hl1 Hd)).
  erewrite bind_ok; [|unfold np_read; simpl; by rewrite lookup_insert_eq].
  unfold set_row, bind, ret.
  rewrite decide_True by done.
  rewrite decide_True by (rewrite eca_row_length; lia).
  done.
Qed.

Lemma insert_next_row {A} (f : nat → A) (z : A) (t T : nat) :
  t < T →
  <[t + 1 := f (S t)]> ((f <$> seq 0 (S t)) ++ replicate (T - t) z)
  = (f <$> seq 0 (S (S t))) ++ replicate (T - S t) z.
Proof.
  intros Ht.
  rewrite insert_app_r_alt by (rewrite length_fmap, length_seq; lia).
  rewrite length_fmap, length_seq.
  replace (t + 1 - S t) with 0 by lia.
  replace (T - t) with (S (T - S t)) by lia.
  rewrite (seq_S (S t)), fmap_app, <- app_assoc. done.
Qed.

(** [createCA] returns the rows of the automaton started from the drawn row,
    and advances the generator by that one draw. *)
Lemma createCA_run (rule : gmap string string) (timesteps n : nat) (w : World) :
  let init := (randint (np_random w) 0 2 n).1 in
  rule_table rule → length init = n → binary init →
  ∃ h, createCA rule timesteps n w
       = Ok (mkMatrix n (eca_rows rule init <$> seq 0 (S timesteps)),
             mkWorld (randint (np_random w) 0 2 n).2 h (calc_log w)).
Proof.
  intros init Hrule Hlen Hbin. unfold createCA, np_random_randint.
  change (0 <? 2)%Z with true. cbv iota.
  destruct (randint (np_random w) 0 2 n) as [init' g] eqn:Hdraw.
  simpl in init. subst init. simpl.
  set (l0 := fresh (dom (heap w))).
  set (h0 := <[l0 := Vec init']> (heap w)).
  set (l1 := fresh (dom h0)).
  set (h1 := <[l1 := Vec (replicate n 0%Z)]> h0).
  assert (Hne : l1 ≠ l0).
  { intros E. pose proof (fresh_loc_None h0) as HN. fold l1 in HN.
    rewrite E in HN. unfold h0 in HN. by rewrite lookup_insert_eq in HN. }
  assert (Hh1l0 : h1 !! l0 = Some (Vec init')).
  { unfold h1. rewrite lookup_insert_ne by done. unfold h0. by rewrite lookup_insert_eq. }
  assert (Hh1l1 : h1 !! l1 = Some (Vec (replicate n 0%Z))).
  { unfold h1. by rewrite lookup_insert_eq. }
  set (w1 := mkWorld g h1 (calc_log w)).
  set (zeros := replicate n 0%Z).
  destruct (for_range_inv
    (λ t (st : Matrix Z * ndref) w',
       ∃ l d, st.2 = Own l
         ∧ heap w' !! l = Some (Vec (eca_rows rule init' t))
         ∧ heap w' !! l1 = Some (Vec d) ∧ length d = n
         ∧ st.1 = mkMatrix n ((eca_rows rule init' <$> seq 0 (S t))
                               ++ replicate (timesteps - t) zeros)
         ∧ np_random w' = g ∧ calc_log w' = calc_log w)
    timesteps (createCA_step rule (Own l1))
    (mkMatrix n (init' :: replicate timesteps zeros), Own l0) w1)
    as ([ca sp] & w' & Hrun & (l & d & Hsp & Hl & Hd & Hdl & Hca & Hg & Hlog)).
  - exists l0, zeros. simpl. rewrite Nat.sub_0_r.
    repeat split; try done. unfold zeros. by rewrite length_replicate.
  - intros t [ca sp] wt Ht (l & d & Hsp & Hl & Hd & Hdl & Hca & Hg & Hlog).
    simpl in Hsp, Hca. subst sp ca.
    assert (Hcur : length (eca_rows rule init' t) = n) by by rewrite eca_rows_length.
    eexists. eexists. split.
    + apply (createCA_step_ok rule _ (eca_rows rule init' t) d l l1 t wt); try done.
      * by apply eca_rows_binary.
      * lia.
      * simpl. rewrite length_app, length_fmap, length_seq, length_replicate. lia.
    + exists l1, (eca_row rule (eca_rows rule init' t)).
      cbn [fst snd heap np_random calc_log].
      rewrite lookup_insert_eq. repeat split; try done.
      * rewrite eca_row_length. done.
      * f_equal. cbn [rows cols].
        exact (insert_next_row (eca_rows rule init') zeros t timesteps Ht).
  - simpl in Hsp, Hca. subst ca.
    exists (heap w').
    revert Hrun. unfold bind, ret, np_zeros, alloc, np_read, set_row, np_zeros2.
    rewrite Hdraw. simpl. fold l0 h0 l1 h1.
    rewrite Hh1l0.
    rewrite decide_True by (rewrite length_replicate; lia).
    rewrite decide_True by done.
    replace (timesteps + 1) with (S timesteps) by lia. simpl.
    fold zeros. fold w1.
    intros ->. rewrite Nat.sub_diag. simpl. rewrite app_nil_r.
    destruct w'. simpl in *. by subst.
Qed.

End CreateCA.

Section CreateCA_claims.
Context {RNG : NumpyRandom}.

(** C1.  For a rule dictionary that maps each of the eight binary
    neighbourhoods to "0" or "1", [createCA rule timesteps n] returns a matrix
    of shape [(timesteps + 1, n)] with entries 0 or 1; its row 0 is the row
    drawn from the generator (which [randint(0, 2, size=n)] makes [n] entries
    0 or 1), and every cell [(t + 1, i)] is the rule's value on the cells
    [(i - 1) mod n], [i] and [(i + 1) mod n] of row [t]. *)
Theorem createCA_synchronous_update (rule : gmap string string)
    (timesteps n : nat) (w : World) :
  let init := (randint (np_random w) 0 2 n).1 in
  rule_table rule → length init = n → binary init →
  ∃ ca w', createCA rule timesteps n w = Ok (ca, w')
    ∧ shape ca = (timesteps + 1, n)
    ∧ wf_matrix ca
    ∧ (∀ t i v, cell ca t i = Some v → v = 0%Z ∨ v = 1%Z)
    ∧ rows ca !! 0 = Some init
    ∧ ∀ t i, t < timesteps → i < n →
        ∃ prev v, rows ca !! t = Some prev
          ∧ cell ca (t + 1) i = Some v
          ∧ eca_next rule prev i = Some v.
Proof.
  intros init Hrule Hlen Hbin.
  destruct (createCA_run rule timesteps n w Hrule Hlen Hbin) as [h Hrun].
  fold init in Hrun.
  assert (Hrow : ∀ t, t < S timesteps →
            (eca_rows rule init <$> seq 0 (S timesteps)) !! t = Some (eca_rows rule init t)).
  { intros t Ht. by rewrite list_lookup_fmap, lookup_seq_lt. }
  eexists. eexists. split; [exact Hrun|].
  unfold shape, wf_matrix, cell. cbn [rows cols].
  split; [|split; [|split; [|split]]].
  - rewrite length_fmap, length_seq. f_equal. lia.
  - apply Forall_fmap, Forall_forall. intros t _. simpl.
    by rewrite eca_rows_length.
  - intros t i v Hv.
    destruct (decide (t < S timesteps)) as [Ht|Ht].
    + rewrite Hrow in Hv by done. simpl in Hv.
      eapply binary_lookup; [|done]. by apply eca_rows_binary.
    + rewrite lookup_ge_None_2 in Hv; [done|].
      rewrite length_fmap, length_seq. lia.
  - by rewrite Hrow by lia.
  - intros t i Ht Hi.
    assert (Hb : binary (eca_rows rule init t)) by by apply eca_rows_binary.
    assert (Hl : i < length (eca_rows rule init t)) by by rewrite eca_rows_length, Hlen.
    destruct (eca_next_binary rule _ i Hrule Hb Hl) as (v & Hv & _).
    exists (eca_rows rule init t), v.
    rewrite !Hrow by lia. simpl.
    split; [done|]. split; [|done].
    replace (t + 1) with (S t) by lia.
    change (eca_rows rule init (S t)) with (eca_row rule (eca_rows rule init t)).
    by rewrite eca_row_lookup.
Qed.

End CreateCA_claims.

Lemma rule90_table : rule_table rule90.
Proof.
  intros key Hkey. unfold binary_keys in Hkey.
  repeat (apply elem_of_cons in Hkey as [-> | Hkey]; [vm_compute; auto|]).
  by apply elem_of_nil in Hkey.
Qed.

Lemma createCA_synchronous_update_witness :
  ∃ ca w', createCA rule90 3 6 world0 = Ok (ca, w')
    ∧ shape ca = (3 + 1, 6)
    ∧ wf_matrix ca
    ∧ (∀ t i v, cell ca t i = Some v → v = 0%Z ∨ v = 1%Z)
    ∧ rows ca !! 0 = Some (randint (np_random world0) 0 2 6).1
    ∧ ∀ t i, t < 3 → i < 6 →
        ∃ prev v, rows ca !! t = Some prev
          ∧ cell ca (t + 1) i = Some v
          ∧ eca_next rule90 prev i = Some v.
Proof.
  apply (createCA_synchronous_update rule90 3 6 world0).
  - exact rule90_table.
  - vm_compute. reflexivity.
  - vm_compute.
    repeat first [apply Forall_nil_2 | apply Forall_cons_2; [first [by left | by right]|]].
Defined.

(** ** The calculator passes *)

Ltac bind_step H := rewrite (bind_ok _ _ _ _ _ H); cbv beta.

Section Passes.
Context {RNG : NumpyRandom} {CALC : TECalculator}.

Lemma ring_index_lt (n c : nat) (s : Z) : 0 < n → ring_index n c s < n.
Proof.
  intros Hn. unfold ring_index.
  assert ((0 ≤ (Z.of_nat c - s) mod Z.of_nat n < Z.of_nat n)%Z)
    by (apply Z.mod_pos_bound; lia).
  lia.
Qed.

(** A pass initialises the calculator, adds the pair and asks for the local
    values; it leaves three entries in the log and touches nothing else. *)
Lemma run_calculator_ok (teCalc : calc_state) (y x : list Z) (w : World) :
  run_calculator teCalc y x w
  = Ok ((calc_computeLocal (calc_addObservations (calc_initialise teCalc) y x) y x,
         calc_addObservations (calc_initialise teCalc) y x),
        mkWorld (np_random w) (heap w) (calc_log w ++ pass_events y x)).
Proof.
  unfold run_calculator, initialise, addObservations,
    computeLocalFromPreviousObservations, log_event, bind, ret, pass_events.
  simpl. by rewrite <- !app_assoc.
Qed.

(** Once the calculator resets, a pass returns [local_te] whatever was
    observed before, and the object still resets to the same state. *)
Lemma pass_after_reset (k : Z) (teCalc : calc_state) (y x : list Z) :
  resets →
  calc_initialise teCalc = calc_initialise (calc_new 2 k) →
  calc_computeLocal (calc_addObservations (calc_initialise teCalc) y x) y x
    = local_te k y x
  ∧ calc_initialise (calc_addObservations (calc_initialise teCalc) y x)
    = calc_initialise (calc_new 2 k).
Proof.
  intros [Hadd Hidem] Hs. unfold local_te. rewrite Hs. split; [done|].
  by rewrite Hadd, Hidem.
Qed.

Lemma cast_to_slice_ok (n : nat) (vals : list Q) (w : World) :
  length vals = n → cast_to_slice n vals w = Ok (trunc <$> vals, w).
Proof. intros Hn. unfold cast_to_slice. by rewrite decide_True. Qed.

(** The source that [teCA] reads for column [c]: the two tests on [neighb]
    bind [y] to column [c] of the matrix rolled by [shift]. *)
Lemma get_column_ok (m : Matrix Z) (c : nat) (w : World) :
  c < cols m → get_column m c w = Ok (column m c, w).
Proof. intros Hc. unfold get_column. by rewrite decide_True. Qed.

(** One pass of [teCA]'s loop, for a neighbour "L" ([shift] 1) or "R"
    ([shift] -1): the calculator runs on column [(c - shift) mod n] as source
    and column [c] as destination, and column [c] of the result receives the
    values it returns, cut to integers. *)
Lemma teCA_column_ok (ca localTE : Matrix Z) (neighb : string) (shift k : Z)
    (c : nat) (teCalc : calc_state) (y : option (list Z)) (w : World) :
  (neighb = "L"%string ∧ shift = 1%Z) ∨ (neighb = "R"%string ∧ shift = (-1)%Z) →
  wf_matrix ca → c < cols ca → per_position → resets →
  calc_initialise teCalc = calc_initialise (calc_new 2 k) →
  cols localTE = cols ca → length (rows localTE) = length (rows ca) →
  let source := column ca (ring_index (cols ca) c shift) in
  let dest := column ca c in
  teCA_column ca neighb c (localTE, teCalc, y) w
  = Ok ((mkMatrix (cols localTE)
           (set_column c (trunc <$> local_te k source dest) (rows localTE)),
         calc_addObservations (calc_initialise teCalc) source dest,
         Some source),
        mkWorld (np_random w) (heap w) (calc_log w ++ pass_events source dest)).
Proof.
  intros Hn Hwf Hc Hlen Hres Hs Hcols Hrows source dest.
  assert (Hx : get_column ca c w = Ok (dest, w)) by by apply get_column_ok.
  assert (Hy : bind (get_column (np_roll_axis1 shift ca) c) (λ v, ret (Some v)) w
               = Ok (Some source, w)).
  { unfold bind. rewrite get_column_ok by done. by rewrite column_np_roll_axis1. }
  destruct (pass_after_reset k teCalc source dest Hres Hs) as [Hvals Hnext].
  assert (Hcast : cast_to_slice (length (rows localTE)) (local_te k source dest) 
                    (mkWorld (np_random w) (heap w) (calc_log w ++ pass_events source dest))
                  = Ok (trunc <$> local_te k source dest,
                        mkWorld (np_random w) (heap w) (calc_log w ++ pass_events source dest))).
  { apply cast_to_slice_ok. unfold local_te. rewrite Hlen, Hrows.
    unfold dest. by apply column_length. }
  unfold teCA_column. bind_step Hx.
  destruct Hn as [[-> ->] | [-> ->]].
  - rewrite decide_True by done. bind_step Hy.
    rewrite decide_False by done.
    unfold bind at 1, ret at 1. unfold bind at 1, read_local, ret at 1.
    unfold bind at 1. rewrite run_calculator_ok, Hvals.
    unfold set_matrix_column. rewrite decide_True by lia.
    unfold bind at 1. unfold bind at 1. rewrite Hcast. done.
  - rewrite decide_False by done.
    unfold bind at 1, ret at 1.
    rewrite decide_True by done. bind_step Hy.
    unfold bind at 1, read_local, ret at 1.
    unfold bind at 1. rewrite run_calculator_ok, Hvals.
    unfold set_matrix_column. rewrite decide_True by lia.
    unfold bind at 1. unfold bind at 1. rewrite Hcast. done.
Qed.

Lemma concat_seq_S {A} (f : nat → list A) (n : nat) :
  concat (f <$> seq 0 (S n)) = concat (f <$> seq 0 n) ++ f n.
Proof. rewrite seq_S, fmap_app, concat_app. simpl. by rewrite app_nil_r. Qed.

(** The whole of [teCA], for a neighbour "L" or "R". *)
Lemma teCA_run (ca : Matrix Z) (k shift : Z) (neighbor : string) (w : World) :
  (upper neighbor = "L"%string ∧ shift = 1%Z)
  ∨ (upper neighbor = "R"%string ∧ shift = (-1)%Z) →
  wf_matrix ca → per_position → resets →
  let source c := column ca (ring_index (cols ca) c shift) in
  ∃ localTE,
    teCA ca k neighbor w
    = Ok (localTE,
          mkWorld (np_random w) (heap w)
            (calc_log w
             ++ concat ((λ c, pass_events (source c) (column ca c)) <$> seq 0 (cols ca))))
    ∧ cols localTE = cols ca
    ∧ length (rows localTE) = length (rows ca)
    ∧ wf_matrix localTE
    ∧ ∀ c, c < cols ca →
        column localTE c = trunc <$> local_te k (source c) (column ca c).
Proof.
  intros Hn Hwf Hlen Hres source.
  set (events c := pass_events (source c) (column ca c)).
  destruct (for_range_inv
    (λ c (st : Matrix Z * calc_state * option (list Z)) w',
       w' = mkWorld (np_random w) (heap w)
              (calc_log w ++ concat (events <$> seq 0 c))
       ∧ calc_initialise st.1.2 = calc_initialise (calc_new 2 k)
       ∧ cols st.1.1 = cols ca
       ∧ length (rows st.1.1) = length (rows ca)
       ∧ wf_matrix st.1.1
       ∧ ∀ c', c' < c →
           column st.1.1 c' = trunc <$> local_te k (source c') (column ca c'))
    (cols ca) (teCA_column ca (upper neighbor))
    (np_zeros2 (length (rows ca)) (cols ca), calc_new 2 k, None) w)
    as ([[localTE teCalc] y] & w' & Hrun & Hw & _ & Hcols & Hrows & Hwf' & Hcol).
  - simpl. rewrite app_nil_r, length_replicate.
    repeat split; try done; [by destruct w|apply np_zeros2_wf|lia].
  - intros c [[localTE teCalc] y] wc Hc (-> & Hs & Hcols & Hrows & Hwf' & Hcol).
    cbn [fst snd] in *.
    eexists. eexists. split.
    + by apply (teCA_column_ok ca localTE (upper neighbor) shift k).
    + cbn [fst snd np_random heap calc_log cols rows].
      assert (Hd : length (trunc <$> local_te k (source c) (column ca c))
                   = length (rows localTE)).
      { rewrite length_fmap. unfold local_te. rewrite Hlen, Hrows.
        by apply column_length. }
      split; [|split; [|split; [|split; [|split]]]].
      * by rewrite concat_seq_S, app_assoc.
      * by apply pass_after_reset.
      * done.
      * by rewrite set_column_length.
      * by apply set_column_wf.
      * intros c' Hc'. destruct (decide (c' = c)) as [->|Hne].
        -- apply column_set_column_eq; [done|lia|done].
        -- rewrite column_set_column_ne; [|done|lia|done]. apply Hcol. lia.
  - cbn [fst snd] in *. exists localTE. split; [|done].
    unfold teCA. rewrite (bind_ok _ _ _ _ _ Hrun). by rewrite Hw.
Qed.

(** With any other neighbour the first pass of the loop reads [y] unbound. *)
Lemma teCA_column_unbound (ca localTE : Matrix Z) (neighb : string) (c : nat)
    (teCalc : calc_state) (w : World) :
  neighb ≠ "L"%string → neighb ≠ "R"%string → c < cols ca →
  teCA_column ca neighb c (localTE, teCalc, None) w = Raise (UnboundLocalError "y").
Proof.
  intros HL HR Hc. unfold teCA_column.
  rewrite (bind_ok _ _ w w (column ca c)) by by apply get_column_ok.
  rewrite decide_False by done. unfold bind at 1, ret at 1.
  rewrite decide_False by done. unfold bind at 1, ret at 1.
  done.
Qed.

End Passes.

(** ** Boxes *)

Lemma line_lookup {A} (b : Box A) (c i t : nat) :
  wf_box b → c < dim1 b → i < dim2 b →
  line b c i !! t = entry b t c i.
Proof.
  destruct b as [d1 d2 ps]. unfold wf_box, line, entry. simpl.
  intros Hwf Hc Hi. revert t.
  induction Hwf as [|p ps [Hp Hr] _ IH]; intros t; [done|].
  destruct (lookup_lt_is_Some_2 p c) as [r Er]; [lia|].
  eapply Forall_lookup in Hr; [|done].
  destruct (lookup_lt_is_Some_2 r i) as [v Ev]; [lia|].
  simpl. rewrite Er. simpl. rewrite Ev.
  destruct t as [|t]; simpl; [by rewrite Er; simpl|]. apply IH.
Qed.

Lemma line_length {A} (b : Box A) (c i : nat) :
  wf_box b → c < dim1 b → i < dim2 b → length (line b c i) = length (planes b).
Proof.
  destruct b as [d1 d2 ps]. unfold wf_box, line. simpl.
  intros Hwf Hc Hi.
  induction Hwf as [|p ps [Hp Hr] _ IH]; [done|].
  destruct (lookup_lt_is_Some_2 p c) as [r Er]; [lia|].
  eapply Forall_lookup in Hr; [|done].
  destruct (lookup_lt_is_Some_2 r i) as [v Ev]; [lia|].
  simpl. rewrite Er. simpl. rewrite Ev. simpl. f_equal. exact IH.
Qed.

Lemma set_line_length {A} (c i : nat) (d : list A) (ps : list (list (list A))) :
  length (set_line c i d ps) = length ps.
Proof. unfold set_line. by rewrite length_imap. Qed.

Lemma set_line_lookup {A} (c i : nat) (d : list A) (ps : list (list (list A))) (t : nat) :
  set_line c i d ps !! t
  = (λ p, match d !! t with
          | Some v => alter (λ r, <[i := v]> r) c p
          | None => p
          end) <$> ps !! t.
Proof. unfold set_line. by rewrite list_lookup_imap. Qed.

Lemma set_line_wf {A} (c i : nat) (d : list A) (b : Box A) :
  wf_box b → wf_box (mkBox (dim1 b) (dim2 b) (set_line c i d (planes b))).
Proof.
  unfold wf_box. simpl. intros Hwf.
  apply Forall_lookup. intros t p Ht.
  rewrite set_line_lookup in Ht.
  destruct (planes b !! t) as [p0|] eqn:E; simplify_eq/=.
  eapply Forall_lookup in Hwf; [|done]. destruct Hwf as [Hp Hr].
  destruct (d !! t) as [v|]; [|done].
  split; [by rewrite length_alter|].
  apply Forall_lookup. intros j r Hj.
  rewrite list_lookup_alter in Hj. case_decide.
  - subst j. destruct (p0 !! c) as [r0|] eqn:Er; simplify_eq/=.
    eapply Forall_lookup in Hr; [|done]. by rewrite length_insert.
  - by eapply Forall_lookup in Hr.
Qed.

(** After [b[:, c, i] = d], that line is [d] and every other line is as before. *)
Lemma line_set_line_eq {A} (c i : nat) (d : list A) (b : Box A) :
  wf_box b → c < dim1 b → i < dim2 b → length d = length (planes b) →
  line (mkBox (dim1 b) (dim2 b) (set_line c i d (planes b))) c i = d.
Proof.
  intros Hwf Hc Hi Hd. apply list_eq. intros t.
  rewrite line_lookup; [|by apply set_line_wf|done|done].
  unfold entry. simpl. rewrite set_line_lookup.
  destruct (planes b !! t) as [p|] eqn:E; simpl.
  - eapply Forall_lookup in Hwf; [|done]. destruct Hwf as [Hp Hr].
    destruct (d !! t) as [v|] eqn:Ed.
    + rewrite list_lookup_alter_eq.
      destruct (lookup_lt_is_Some_2 p c) as [r Er]; [lia|].
      eapply Forall_lookup in Hr; [|done].
      rewrite Er. simpl. rewrite list_lookup_insert_eq; [done|lia].
    + apply lookup_ge_None in Ed. apply lookup_lt_Some in E. lia.
  - apply lookup_ge_None in E. symmetry. apply lookup_ge_None. lia.
Qed.

Lemma line_set_line_ne {A} (c i c' i' : nat) (d : list A) (b : Box A) :
  wf_box b → c' < dim1 b → i' < dim2 b → (c, i) ≠ (c', i') →
  line (mkBox (dim1 b) (dim2 b) (set_line c i d (planes b))) c' i' = line b c' i'.
Proof.
  intros Hwf Hc Hi Hne. apply list_eq. intros t.
  rewrite !line_lookup; [|done|done|done|by apply set_line_wf|done|done].
  unfold entry. simpl. rewrite set_line_lookup.
  destruct (planes b !! t) as [p|] eqn:E; simpl; [|done].
  destruct (d !! t) as [v|]; [|done].
  rewrite list_lookup_alter. case_decide; [|done].
  subst c'. destruct (p !! c) as [r|]; simpl; [|done].
  rewrite list_lookup_insert_ne; [done|]. congruence.
Qed.

Lemma np_zeros3_wf (r c d : nat) : wf_box (np_zeros3 r c d).
Proof.
  unfold wf_box, np_zeros3. simpl.
  apply Forall_replicate. split; [by rewrite length_replicate|].
  apply Forall_replicate. by rewrite length_replicate.
Qed.

(** ** teCA_Box *)

Section BoxPasses.
Context {RNG : NumpyRandom} {CALC : TECalculator}.

Lemma set_box_line_ok (localTE : Box Z) (c i : nat) (vals : list Q) (w : World) :
  c < dim1 localTE → i < dim2 localTE → length vals = length (planes localTE) →
  set_box_line localTE c i vals w
  = Ok (mkBox (dim1 localTE) (dim2 localTE)
          (set_line c i (trunc <$> vals) (planes localTE)), w).
Proof.
  intros Hc Hi Hlen. unfold set_box_line.
  rewrite !decide_True by done.
  unfold bind. by rewrite cast_to_slice_ok.
Qed.

(** One pass of [teCA_Box]'s inner loop, for a neighbour "L" ([shift] [i]) or
    "R" ([shift] [- i]). *)
Lemma teCA_Box_cell_ok (ca : Matrix Z) (localTE : Box Z) (neighb : string)
    (shift k : Z) (c i : nat) (teCalc : calc_state) (y : option (list Z)) (w : World) :
  (neighb = "L"%string ∧ shift = Z.of_nat i)
  ∨ (neighb = "R"%string ∧ shift = (- Z.of_nat i)%Z) →
  wf_matrix ca → c < cols ca → per_position → resets →
  calc_initialise teCalc = calc_initialise (calc_new 2 k) →
  c < dim1 localTE → i < dim2 localTE →
  length (planes localTE) = length (rows ca) →
  let source := column ca (ring_index (cols ca) c shift) in
  let dest := column ca c in
  teCA_Box_cell ca neighb c i (localTE, teCalc, y) w
  = Ok ((mkBox (dim1 localTE) (dim2 localTE)
           (set_line c i (trunc <$> local_te k source dest) (planes localTE)),
         calc_addObservations (calc_initialise teCalc) source dest,
         Some source),
        mkWorld (np_random w) (heap w) (calc_log w ++ pass_events source dest)).
Proof.
  intros Hn Hwf Hc Hlen Hres Hs Hd1 Hd2 Hrows source dest.
  assert (Hx : get_column ca c w = Ok (dest, w)) by by apply get_column_ok.
  assert (Hy : bind (get_column (np_roll_axis1 shift ca) c) (λ v, ret (Some v)) w
               = Ok (Some source, w)).
  { unfold bind. rewrite get_column_ok by done. by rewrite column_np_roll_axis1. }
  destruct (pass_after_reset k teCalc source dest Hres Hs) as [Hvals Hnext].
  assert (Hset : set_box_line localTE c i (local_te k source dest)
                   (mkWorld (np_random w) (heap w) (calc_log w ++ pass_events source dest))
                 = Ok (mkBox (dim1 localTE) (dim2 localTE)
                         (set_line c i (trunc <$> local_te k source dest) (planes localTE)),
                       mkWorld (np_random w) (heap w)
                         (calc_log w ++ pass_events source dest))).
  { apply set_box_line_ok; [done..|]. unfold local_te. rewrite Hlen, Hrows.
    unfold dest. by apply column_length. }
  unfold teCA_Box_cell. bind_step Hx.
  destruct Hn as [[-> ->] | [-> ->]].
  - rewrite decide_True by done. bind_step Hy.
    rewrite decide_False by done.
    unfold bind at 1, ret at 1. unfold bind at 1, read_local, ret at 1.
    unfold bind at 1. rewrite run_calculator_ok, Hvals.
    unfold bind at 1. rewrite Hset. done.
  - rewrite decide_False by done.
    unfold bind at 1, ret at 1.
    rewrite decide_True by done. bind_step Hy.
    unfold bind at 1, read_local, ret at 1.
    unfold bind at 1. rewrite run_calculator_ok, Hvals.
    unfold bind at 1. rewrite Hset. done.
Qed.

Lemma teCA_Box_cell_unbound (ca : Matrix Z) (localTE : Box Z) (neighb : string)
    (c i : nat) (teCalc : calc_state) (w : World) :
  neighb ≠ "L"%string → neighb ≠ "R"%string → c < cols ca →
  teCA_Box_cell ca neighb c i (localTE, teCalc, None) w = Raise (UnboundLocalError "y").
Proof.
  intros HL HR Hc. unfold teCA_Box_cell.
  rewrite (bind_ok _ _ w w (column ca c)) by by apply get_column_ok.
  rewrite decide_False by done. unfold bind at 1, ret at 1.
  rewrite decide_False by done. unfold bind at 1, ret at 1.
  done.
Qed.

(** The whole of [teCA_Box], for a neighbour "L" ([sign] 1) or "R" ([sign] -1). *)
Lemma teCA_Box_run (ca : Matrix Z) (k sign : Z) (neighbor : string) (w : World) :
  (upper neighbor = "L"%string ∧ sign = 1%Z)
  ∨ (upper neighbor = "R"%string ∧ sign = (-1)%Z) →
  wf_matrix ca → per_position → resets →
  let source c i := column ca (ring_index (cols ca) c (sign * Z.of_nat i)) in
  ∃ localTE,
    teCA_Box ca k neighbor w
    = Ok (localTE,
          mkWorld (np_random w) (heap w)
            (calc_log w
             ++ concat ((λ c, concat ((λ i, pass_events (source c i) (column ca c))
                                       <$> seq 0 (cols ca)))
                        <$> seq 0 (cols ca))))
    ∧ shape3 localTE = (length (rows ca), cols ca, cols ca)
    ∧ wf_box localTE
    ∧ ∀ c i, c < cols ca → i < cols ca →
        line localTE c i = trunc <$> local_te k (source c i) (column ca c).
Proof.
  intros Hn Hwf Hlen Hres source.
  set (n := cols ca).
  set (inner c i := pass_events (source c i) (column ca c)).
  set (outer c := concat (inner c <$> seq 0 n)).
  set (P := λ c i (st : Box Z * calc_state * option (list Z)) (w' : World),
       w' = mkWorld (np_random w) (heap w)
              (calc_log w ++ concat (outer <$> seq 0 c) ++ concat (inner c <$> seq 0 i))
       ∧ calc_initialise st.1.2 = calc_initialise (calc_new 2 k)
       ∧ shape3 st.1.1 = (length (rows ca), n, n)
       ∧ wf_box st.1.1
       ∧ ∀ c' i', (c' < c ∧ i' < n) ∨ (c' = c ∧ i' < i) →
           line st.1.1 c' i' = trunc <$> local_te k (source c' i') (column ca c')).
  destruct (for_range_inv (λ c, P c 0) n
    (λ column_, for_range n (teCA_Box_cell ca (upper neighbor) column_))
    (np_zeros3 (length (rows ca)) n n, calc_new 2 k, None) w)
    as ([[localTE teCalc] y] & w' & Hrun & Hw & _ & Hshape & Hwf' & Hline).
  - unfold P. simpl. rewrite app_nil_r. unfold shape3. simpl. rewrite length_replicate.
    repeat split; try done; [by destruct w|apply np_zeros3_wf|lia..].
  - intros c st wc Hc HP.
    destruct (for_range_inv (P c) n (teCA_Box_cell ca (upper neighbor) c) st wc HP)
      as (st' & w'' & Hrun & HP').
    + intros i [[localTE teCalc] y] wi Hi (-> & Hs & Hshape & Hwf' & Hline).
      cbn [fst snd] in *. unfold shape3 in Hshape. simplify_eq.
      assert (Hshift : (upper neighbor = "L"%string ∧ sign * Z.of_nat i = Z.of_nat i)%Z
                ∨ (upper neighbor = "R"%string ∧ sign * Z.of_nat i = - Z.of_nat i)%Z).
      { destruct Hn as [[? ->] | [? ->]]; [left | right]; split; try done; lia. }
      eexists. eexists. split.
      * apply (teCA_Box_cell_ok ca localTE (upper neighbor) (sign * Z.of_nat i)%Z k c i);
          try done; lia.
      * unfold P. cbn [fst snd np_random heap calc_log].
        assert (Hd : length (trunc <$> local_te k (source c i) (column ca c))
                     = length (planes localTE)).
        { rewrite length_fmap. unfold local_te. rewrite Hlen.
          rewrite column_length by done. lia. }
        split; [|split; [|split; [|split]]].
        -- rewrite concat_seq_S. by rewrite <- !app_assoc.
        -- by apply pass_after_reset.
        -- unfold shape3. cbn [planes dim1 dim2]. rewrite set_line_length. congruence.
        -- by apply set_line_wf.
        -- intros c' i' Hci.
           destruct (decide ((c, i) = (c', i'))) as [E|Hne].
           ++ simplify_eq. apply line_set_line_eq; [done|lia|lia|done].
           ++ rewrite line_set_line_ne; [|done|lia|lia|done].
              apply Hline. destruct Hci as [?|[-> ?]]; [by left|right].
              split; [done|]. assert (i' ≠ i) by congruence. lia.
    + exists st', w''. split; [done|].
      destruct HP' as (-> & Hs & Hshape & Hwf' & Hline).
      unfold P. split; [|split; [|split; [|split]]]; try done.
      * rewrite concat_seq_S. simpl. by rewrite app_nil_r.
      * intros c' i' [[Hc' Hi']|[-> Hi']]; [|lia].
        apply Hline. destruct (decide (c' = c)) as [->|]; [by right|left; lia].
  - cbn [fst snd] in *. exists localTE.
    split; [|split; [done|split; [done|]]].
    + unfold teCA_Box. fold n. rewrite (bind_ok _ _ _ _ _ Hrun).
      rewrite Hw. simpl. by rewrite app_nil_r.
    + intros c i Hc Hi. apply Hline. by left.
Qed.

End BoxPasses.

(** ** teCA_null *)

Section NullTest.
Context {RNG : NumpyRandom} {CALC : TECalculator}.

Lemma np_column_ok (ca : loc) (m : Matrix Z) (c : nat) (w : World) :
  heap w !! ca = Some (Mat m) → c < cols m →
  np_column ca c w = Ok (ColumnOf ca c, w).
Proof. intros Hca Hc. unfold np_column. rewrite Hca. by rewrite decide_True. Qed.

(** Copying the view [ca[:, c]] allocates a new array and leaves every array
    that was there as it is. *)
Lemma np_copy_column_ok (ca : loc) (m : Matrix Z) (c : nat) (w : World) :
  heap w !! ca = Some (Mat m) →
  let l := fresh (dom (heap w)) in
  np_copy (ColumnOf ca c) w
  = Ok (Own l, mkWorld (np_random w) (<[l := Vec (column m c)]> (heap w)) (calc_log w))
  ∧ heap w !! l = None.
Proof.
  intros Hca l. split; [|apply fresh_loc_None].
  unfold np_copy, bind, np_read, alloc, ret. by rewrite Hca.
Qed.

(** Shuffling an array of its own replaces the entries of that array only. *)
Lemma np_random_shuffle_ok (l : loc) (d : list Z) (w : World) :
  heap w !! l = Some (Vec d) →
  np_random_shuffle (Own l) w
  = Ok (tt, mkWorld (shuffle (np_random w) d).2
              (<[l := Vec (shuffle (np_random w) d).1]> (heap w)) (calc_log w)).
Proof.
  intros Hl. unfold np_random_shuffle, bind, np_read, np_write. rewrite Hl.
  destruct (shuffle (np_random w) d) as [d' g]. simpl. by rewrite Hl.
Qed.

(** One pass of the null test: the source is the shuffled copy of column [c],
    the destination is column [c], and the matrix at [ca] is not written. *)
Lemma teCA_null_column_ok (ca : loc) (m : Matrix Z) (localTE : Box Z) (k : Z)
    (i c : nat) (teCalc : calc_state) (w : World) :
  heap w !! ca = Some (Mat m) →
  wf_matrix m → c < cols m → per_position → resets →
  calc_initialise teCalc = calc_initialise (calc_new 2 k) →
  c < dim1 localTE → i < dim2 localTE →
  length (planes localTE) = length (rows m) →
  let dest := column m c in
  let source := (shuffle (np_random w) dest).1 in
  ∃ h,
    teCA_null_column ca i c (localTE, teCalc) w
    = Ok ((mkBox (dim1 localTE) (dim2 localTE)
             (set_line c i (trunc <$> local_te k source dest) (planes localTE)),
           calc_addObservations (calc_initialise teCalc) source dest),
          mkWorld (shuffle (np_random w) dest).2 h
            (calc_log w ++ pass_events source dest))
    ∧ h !! ca = Some (Mat m).
Proof.
  intros Hca Hwf Hc Hlen Hres Hs Hd1 Hd2 Hrows dest source.
  set (lx := fresh (dom (heap w))).
  set (h1 := <[lx := Vec dest]> (heap w)).
  set (w1 := mkWorld (np_random w) h1 (calc_log w)).
  set (ly := fresh (dom h1)).
  set (h2 := <[ly := Vec dest]> h1).
  set (w2 := mkWorld (np_random w) h2 (calc_log w)).
  set (h3 := <[ly := Vec source]> h2).
  set (w3 := mkWorld (shuffle (np_random w) dest).2 h3 (calc_log w)).
  assert (Hlx : heap w !! lx = None) by apply fresh_loc_None.
  assert (Hly : h1 !! ly = None) by apply fresh_loc_None.
  assert (Hne_x : lx ≠ ca) by (intros ->; congruence).
  assert (Hne_y : ly ≠ lx).
  { intros E. rewrite E in Hly. unfold h1 in Hly. by rewrite lookup_insert_eq in Hly. }
  assert (Hca1 : h1 !! ca = Some (Mat m)) by (unfold h1; by rewrite lookup_insert_ne).
  assert (Hne_yca : ly ≠ ca) by (intros ->; congruence).
  assert (Hca3 : h3 !! ca = Some (Mat m)).
  { unfold h3, h2. by rewrite !lookup_insert_ne. }
  assert (Hx3 : h3 !! lx = Some (Vec dest)).
  { unfold h3, h2, h1. rewrite !lookup_insert_ne by done. by rewrite lookup_insert_eq. }
  assert (Hy3 : h3 !! ly = Some (Vec source)) by (unfold h3; by rewrite lookup_insert_eq).
  exists h3. split; [|done].
  destruct (pass_after_reset k teCalc source dest Hres Hs) as [Hvals Hnext].
  unfold teCA_null_column.
  bind_step (np_column_ok ca m c w Hca Hc).
  bind_step (proj1 (np_copy_column_ok ca m c w Hca)). fold lx dest h1 w1.
  bind_step (np_column_ok ca m c w1 Hca1 Hc).
  bind_step (proj1 (np_copy_column_ok ca m c w1 Hca1)).
  change (fresh (dom (heap w1))) with ly.
  change (mkWorld (np_random w1) (<[ly := Vec (column m c)]> (heap w1)) (calc_log w1))
    with w2.
  assert (Hsh : np_random_shuffle (Own ly) w2 = Ok (tt, w3)).
  { rewrite (np_random_shuffle_ok ly dest) by (unfold w2, h2; simpl; by rewrite lookup_insert_eq).
    done. }
  bind_step Hsh.
  rewrite (bind_ok _ _ w3 w3 source)
    by (unfold np_read; change (heap w3) with h3; by rewrite Hy3).
  cbv beta.
  rewrite (bind_ok _ _ w3 w3 dest)
    by (unfold np_read; change (heap w3) with h3; by rewrite Hx3).
  cbv beta.
  unfold bind at 1. rewrite run_calculator_ok, Hvals.
  unfold bind at 1. rewrite set_box_line_ok; [done..|].
  unfold local_te. rewrite Hlen, Hrows. unfold dest. by apply column_length.
Qed.

Lemma null_rng_step (m : Matrix Z) (g : rng) (i c : nat) :
  c < cols m →
  (shuffle (null_rng m g (i * cols m + c)) (column m c)).2
  = null_rng m g (i * cols m + S c).
Proof.
  intros Hc. replace (i * cols m + S c) with (S (i * cols m + c)) by lia.
  simpl. repeat f_equal.
  rewrite Nat.add_comm, Nat.Div0.mod_add. by rewrite Nat.mod_small.
Qed.

(** The two nested loops of [teCA_null]. *)
Lemma teCA_null_trials_run (ca : loc) (m : Matrix Z) (k : Z) (numTrials : nat) (w : World) :
  heap w !! ca = Some (Mat m) → wf_matrix m → per_position → resets →
  let g := np_random w in
  ∃ localTE h,
    teCA_null_trials ca k numTrials w
    = Ok (localTE,
          mkWorld (null_rng m g (numTrials * cols m)) h
            (calc_log w
             ++ concat ((λ i, concat ((λ c, pass_events (null_source m g i c) (column m c))
                                       <$> seq 0 (cols m)))
                        <$> seq 0 numTrials)))
    ∧ h !! ca = Some (Mat m)
    ∧ shape3 localTE = (length (rows m), cols m, numTrials)
    ∧ wf_box localTE
    ∧ ∀ c i, c < cols m → i < numTrials →
        line localTE c i = trunc <$> local_te k (null_source m g i c) (column m c).
Proof.
  intros Hca Hwf Hlen Hres g.
  set (n := cols m).
  set (inner i c := pass_events (null_source m g i c) (column m c)).
  set (outer i := concat (inner i <$> seq 0 n)).
  set (P := λ i c (st : Box Z * calc_state) (w' : World),
       np_random w' = null_rng m g (i * n + c)
       ∧ heap w' !! ca = Some (Mat m)
       ∧ calc_log w'
         = calc_log w ++ concat (outer <$> seq 0 i) ++ concat (inner i <$> seq 0 c)
       ∧ calc_initialise st.2 = calc_initialise (calc_new 2 k)
       ∧ shape3 st.1 = (length (rows m), n, numTrials)
       ∧ wf_box st.1
       ∧ ∀ c' i', (i' < i ∧ c' < n) ∨ (i' = i ∧ c' < c) →
           line st.1 c' i' = trunc <$> local_te k (null_source m g i' c') (column m c')).
  destruct (for_range_inv (λ i, P i 0) numTrials
    (λ i, for_range n (teCA_null_column ca i))
    (np_zeros3 (length (rows m)) n numTrials, calc_new 2 k) w)
    as ([localTE teCalc] & w' & Hrun & Hg & Hca' & Hlog & _ & Hshape & Hwf' & Hline).
  - unfold P. simpl. rewrite app_nil_r. unfold shape3. simpl. rewrite length_replicate.
    repeat split; try done; [apply np_zeros3_wf|lia..].
  - intros i st wi Hi HP.
    destruct (for_range_inv (P i) n (teCA_null_column ca i) st wi HP)
      as (st' & w'' & Hrun & HP').
    + intros c [localTE teCalc] wc Hc (Hg & Hca' & Hlog & Hs & Hshape & Hwf' & Hline).
      cbn [fst snd] in *. unfold shape3 in Hshape. simplify_eq.
      destruct (teCA_null_column_ok ca m localTE k i c teCalc wc)
        as (h & Hstep & Hh); try done; [lia..|].
      rewrite Hg in Hstep. fold (null_source m g i c) in Hstep. 
      eexists. eexists. split; [exact Hstep|].
      unfold P. cbn [fst snd np_random heap calc_log].
      assert (Hd : length (trunc <$> local_te k (null_source m g i c) (column m c))
                   = length (planes localTE)).
      { rewrite length_fmap. unfold local_te. rewrite Hlen.
        rewrite column_length by done. lia. }
      split; [|split; [|split; [|split; [|split; [|split]]]]].
      * by apply null_rng_step.
      * done.
      * rewrite Hlog, concat_seq_S. by rewrite <- !app_assoc.
      * by apply pass_after_reset.
      * unfold shape3. cbn [planes dim1 dim2]. rewrite set_line_length. congruence.
      * by apply set_line_wf.
      * intros c' i' Hci.
        destruct (decide ((c, i) = (c', i'))) as [E|Hne].
        -- simplify_eq. apply line_set_line_eq; [done|lia|lia|done].
        -- rewrite line_set_line_ne; [|done|lia|lia|done].
           apply Hline. destruct Hci as [?|[-> ?]]; [by left|right].
           split; [done|]. assert (c' ≠ c) by congruence. lia.
    + exists st', w''. split; [done|].
      destruct HP' as (Hg & Hca' & Hlog & Hs & Hshape & Hwf' & Hline).
      unfold P. split; [|split; [|split; [|split; [|split; [|split]]]]]; try done.
      * rewrite Hg. f_equal. lia.
      * rewrite Hlog, concat_seq_S. simpl. by rewrite app_nil_r.
      * intros c' i' [[Hi' Hc']|[-> Hc']]; [|lia].
        apply Hline. destruct (decide (i' = i)) as [->|]; [by right|left; lia].
  - cbn [fst snd] in *. exists localTE, (heap w').
    split; [|split; [done|split; [done|split; [done|]]]].
    + unfold teCA_null_trials.
      rewrite (bind_ok _ _ w w m) by (unfold np_load; by rewrite Hca).
      cbv beta. fold n. rewrite (bind_ok _ _ _ _ _ Hrun).
      unfold ret. f_equal. f_equal. destruct w'. simpl in *.
      rewrite Hg, Hlog, Nat.add_0_r. simpl. by rewrite app_nil_r.
    + intros c i Hc Hi. apply Hline. by left.
Qed.

End NullTest.

(** ** greatestInfluence *)

Section InfluenceProps.
Context {A : Type} (gtb : A → A → bool).

Lemma argmax_from_lt (best : A) (best_i i : nat) (a : list A) :
  best_i < i → argmax_from gtb best best_i i a < i + length a.
Proof.
  revert best best_i i. induction a as [|x a IH]; intros best best_i i Hlt; simpl.
  - lia.
  - destruct (gtb x best).
    + specialize (IH x i (S i)). lia.
    + specialize (IH best best_i (S i)). lia.
Qed.

Lemma np_argmax_lt (a : list A) :
  a ≠ [] → ∃ index, np_argmax gtb a = Ok index ∧ index < length a.
Proof.
  destruct a as [|x a]; [done|]. intros _. simpl. eexists. split; [done|].
  pose proof (argmax_from_lt x 0 1 a). lia.
Qed.

Lemma concat_length_wf (p : list (list A)) (d1 d2 : nat) :
  length p = d1 → Forall (λ r, length r = d2) p → length (concat p) = d1 * d2.
Proof.
  intros <- Hr. induction Hr as [|r p Hr _ IH]; simpl; [done|].
  rewrite length_app, IH, Hr. lia.
Qed.

Lemma np_arange_lookup (n i : nat) : i < n → np_arange n !! i = Some (Z.of_nat i).
Proof. intros Hi. unfold np_arange. by rewrite list_lookup_fmap, lookup_seq_lt. Qed.

Lemma np_arange_length (n : nat) : length (np_arange n) = n.
Proof. unfold np_arange. by rewrite length_fmap, length_seq. Qed.

(** Indexing [np.arange(n)] with [z] between [-n] and [n - 1] gives [z mod n]:
    a negative index counts from the end. *)
Lemma py_index_arange (n : nat) (z : Z) :
  (- Z.of_nat n ≤ z < Z.of_nat n)%Z →
  py_index (np_arange n) z = Ok (z mod Z.of_nat n)%Z.
Proof.
  intros Hz. unfold py_index. rewrite np_arange_length.
  destruct (z <? 0)%Z eqn:E.
  - apply Z.ltb_lt in E.
    assert (Hb : (0 <=? z + Z.of_nat n)%Z && (z + Z.of_nat n <? Z.of_nat n)%Z = true).
    { apply andb_true_intro. split; [apply Z.leb_le | apply Z.ltb_lt]; lia. }
    rewrite Hb, np_arange_lookup by lia. f_equal.
    rewrite Z2Nat.id by lia. apply Z.mod_unique with (-1)%Z; lia.
  - apply Z.ltb_ge in E.
    assert (Hb : (0 <=? z)%Z && (z <? Z.of_nat n)%Z = true).
    { apply andb_true_intro. split; [apply Z.leb_le | apply Z.ltb_lt]; lia. }
    rewrite Hb, np_arange_lookup by lia. f_equal.
    rewrite Z2Nat.id by lia. symmetry. apply Z.mod_small. lia.
Qed.

Lemma increment_ok (a : list Z) (i : nat) (v : Z) :
  a !! i = Some v → increment a (Z.of_nat i) = Ok (<[i := (v + 1)%Z]> a).
Proof.
  intros Hv. pose proof (lookup_lt_Some _ _ _ Hv) as Hi.
  unfold increment, py_index.
  assert (E : (Z.of_nat i <? 0)%Z = false) by (apply Z.ltb_ge; lia).
  assert (Hb : (0 <=? Z.of_nat i)%Z && (Z.of_nat i <? Z.of_nat (length a))%Z = true).
  { apply andb_true_intro. split; [apply Z.leb_le | apply Z.ltb_lt]; lia. }
  rewrite E, Hb, Nat2Z.id, Hv. done.
Qed.

Lemma source_town_lt (teBox : Box A) (i : nat) : source_town gtb teBox i < 226.
Proof.
  unfold source_town.
  pose proof (Z.mod_pos_bound (Z.of_nat i - Z.of_nat (argmax_column gtb teBox i)) 226).
  lia.
Qed.

(** One pass of the loop on a box of shape (226, 226, 226): the count of the
    town that row [i] singles out goes up by one. *)
Lemma greatestInfluence_step_ok (teBox : Box A) (i : nat) (towns : list Z) :
  shape3 teBox = (226, 226, 226) → wf_box teBox →
  i < 226 → length towns = 226 →
  ∃ v, towns !! source_town gtb teBox i = Some v
    ∧ greatestInfluence_step gtb teBox (np_arange 226) i towns
      = Ok (<[source_town gtb teBox i := (v + 1)%Z]> towns).
Proof.
  intros Hshape Hwf Hi Htowns. unfold shape3 in Hshape.
  assert (Hlen : length (planes teBox) = 226) by exact (f_equal (λ p, p.1.1) Hshape).
  assert (Hd1 : dim1 teBox = 226) by exact (f_equal (λ p, p.1.2) Hshape).
  assert (Hd2 : dim2 teBox = 226) by exact (f_equal snd Hshape).
  destruct (lookup_lt_is_Some_2 (planes teBox) i) as [plane Hplane]; [lia|].
  eapply Forall_lookup in Hwf; [|done]. destruct Hwf as [Hp Hr].
  assert (Hcat : length (concat plane) = 226 * 226).
  { apply concat_length_wf; [lia | by rewrite <- Hd2]. }
  destruct (np_argmax_lt (concat plane)) as (index & Harg & Hidx).
  { intros E. rewrite E in Hcat. change (length (@nil A)) with 0 in Hcat. lia. }
  pose proof (source_town_lt teBox i) as Ht.
  destruct (lookup_lt_is_Some_2 towns (source_town gtb teBox i)) as [v Hv]; [lia|].
  exists v. split; [done|].
  unfold greatestInfluence_step. rewrite Hplane, Harg. cbn [rbind].
  unfold np_unravel_index. rewrite Hd1, Hd2.
  rewrite decide_True by lia. cbn [rbind snd].
  assert (Hj : index mod 226 < 226) by (apply Nat.mod_upper_bound; lia).
  rewrite py_index_arange by lia. cbn [rbind].
  assert (Hst : ((Z.of_nat i - Z.of_nat (index mod 226)) mod Z.of_nat 226)%Z
                = Z.of_nat (source_town gtb teBox i)).
  { unfold source_town, argmax_column. rewrite Hplane, Harg, Hd2.
    rewrite Z2Nat.id; [done|]. apply Z.mod_pos_bound. lia. }
  rewrite Hst. by apply increment_ok.
Qed.

Lemma sum_Z_insert (a : list Z) (i : nat) (v v' : Z) :
  a !! i = Some v → sum_Z (<[i := v']> a) = (sum_Z a - v + v')%Z.
Proof.
  revert i. induction a as [|x a IH]; intros i Hi; [done|].
  destruct i as [|i]; simpl in *.
  - simplify_eq. lia.
  - rewrite (IH i Hi). lia.
Qed.

Lemma sum_Z_replicate_0 (n : nat) : sum_Z (replicate n 0%Z) = 0%Z.
Proof. induction n as [|n IH]; simpl; [done|]. exact IH. Qed.

Lemma votes_cons (teBox : Box A) (i : nat) (rest : list nat) (s : nat) :
  votes gtb teBox (i :: rest) s
  = (if decide (source_town gtb teBox i = s) then 1 else 0) + votes gtb teBox rest s.
Proof. unfold votes. rewrite filter_cons. by case_decide. Qed.

(** The loop over a set of rows adds, to each town, the number of those rows
    that single it out, and adds one count per row in all. *)
Lemma greatestInfluence_loop_ok (teBox : Box A) (range_ : list nat) (towns : list Z) :
  shape3 teBox = (226, 226, 226) → wf_box teBox →
  Forall (λ i, i < 226) range_ → length towns = 226 →
  ∃ towns',
    greatestInfluence_loop gtb teBox (np_arange 226) range_ towns = Ok towns'
    ∧ length towns' = 226
    ∧ (∀ s, towns' !! s
            = (λ v, (v + Z.of_nat (votes gtb teBox range_ s))%Z) <$> towns !! s)
    ∧ sum_Z towns' = (sum_Z towns + Z.of_nat (length range_))%Z.
Proof.
  intros Hshape Hwf Hrange. revert towns.
  induction Hrange as [|i rest Hi _ IH]; intros towns Hlen.
  - exists towns. cbn [greatestInfluence_loop length]. repeat split; [done| |lia].
    intros s. unfold votes. rewrite filter_nil. cbn [length].
    destruct (towns !! s); simpl; [f_equal; lia|done].
  - destruct (greatestInfluence_step_ok teBox i towns Hshape Hwf Hi Hlen)
      as (v & Hv & Hstep).
    destruct (IH (<[source_town gtb teBox i := (v + 1)%Z]> towns))
      as (towns' & Hloop & Hlen' & Hvotes & Hsum); [by rewrite length_insert|].
    exists towns'. cbn [greatestInfluence_loop]. rewrite Hstep. cbn [rbind].
    split; [done|]. split; [done|]. split.
    + intros s. rewrite Hvotes, votes_cons.
      destruct (decide (source_town gtb teBox i = s)) as [<-|Hne].
      * rewrite list_lookup_insert_eq by (apply lookup_lt_Some in Hv; lia).
        rewrite Hv. simpl. f_equal. lia.
      * rewrite list_lookup_insert_ne by done.
        destruct (towns !! s); simpl; [f_equal; lia|done].
    + rewrite Hsum, (sum_Z_insert _ _ v) by done. cbn [length]. lia.
Qed.

(** On a box of shape (226, 226, 226), [greatestInfluence] returns the towns
    0 to 225 and, for each, the number of rows that single it out. *)
Lemma greatestInfluence_run (teBox : Box A) :
  shape3 teBox = (226, 226, 226) → wf_box teBox →
  ∃ towns,
    greatestInfluence gtb teBox = Ok (np_arange 226, towns)
    ∧ length towns = 226
    ∧ (∀ s, s < 226 →
         towns !! s = Some (Z.of_nat (votes gtb teBox (seq 0 226) s)))
    ∧ sum_Z towns = 226%Z.
Proof.
  intros Hshape Hwf.
  assert (Hlen : length (planes teBox) = 226) by exact (f_equal (λ p, p.1.1) Hshape).
  destruct (greatestInfluence_loop_ok teBox (seq 0 226) (replicate 226 0%Z) Hshape Hwf)
    as (towns & Hloop & Hlen' & Hvotes & Hsum).
  { apply Forall_seq. intros i Hi. lia. }
  { apply length_replicate. }
  exists towns. unfold greatestInfluence. rewrite Hlen, Hloop. cbn [rbind].
  split; [done|]. split; [done|]. split.
  - intros s Hs. rewrite Hvotes, lookup_replicate_2 by done. simpl. f_equal.
  - rewrite Hsum, sum_Z_replicate_0, length_seq. done.
Qed.

End InfluenceProps.

(** * The claims *)

Section Neighbour_claims.
Context {RNG : NumpyRandom} {CALC : TECalculator}.

(** C9.  When the neighbour, in upper case, is neither "L" nor "R", [teCA]
    and [teCA_Box] return nothing on a matrix with at least one column: the
    first pass of the loop reads the name [y], which was never bound, and the
    call ends in an [UnboundLocalError]. *)
Theorem teCA_unbound_neighbour (ca : Matrix Z) (k : Z) (neighbor : string) (w : World) :
  upper neighbor ≠ "L"%string → upper neighbor ≠ "R"%string → 0 < cols ca →
  teCA ca k neighbor w = Raise (UnboundLocalError "y")
  ∧ teCA_Box ca k neighbor w = Raise (UnboundLocalError "y").
Proof.
  intros HL HR Hn. split.
  - unfold teCA. apply bind_raise, for_range_raise; [done|].
    by apply teCA_column_unbound.
  - unfold teCA_Box. apply bind_raise, for_range_raise; [done|].
    apply for_range_raise; [done|]. by apply teCA_Box_cell_unbound.
Qed.

End Neighbour_claims.

Lemma teCA_unbound_neighbour_witness :
  teCA ca52 1 "both" world0 = Raise (UnboundLocalError "y")
  ∧ teCA_Box ca52 1 "both" world0 = Raise (UnboundLocalError "y").
Proof.
  apply (teCA_unbound_neighbour ca52 1 "both" world0).
  - vm_compute. discriminate.
  - vm_compute. discriminate.
  - vm_compute. lia.
Defined.

Section Influence_claims.
Context {A : Type} (gtb : A → A → bool).

(** C4.  On a box of shape (226, 226, 226), [greatestInfluence] returns the
    pair of [indicies], which is 0, 1, ..., 225, and [towns], which holds for
    each town [s] the number of rows [i] with [(i - j) mod 226 = s], [j]
    being the second coordinate of the largest entry of the plane
    [teBox[i, :, :]]; each pass [i] of the loop adds one to the counter of
    town [(i - j) mod 226] and to no other. *)
Theorem greatestInfluence_counts (teBox : Box A) :
  shape3 teBox = (226, 226, 226) → wf_box teBox →
  ∃ towns,
    greatestInfluence gtb teBox = Ok (Z.of_nat <$> seq 0 226, towns)
    ∧ length towns = 226
    ∧ (∀ s, s < 226 →
         towns !! s
         = Some (Z.of_nat (length (filter (λ i, source_town gtb teBox i = s) (seq 0 226)))))
    ∧ ∀ i counts, i < 226 → length counts = 226 →
        ∃ v, counts !! source_town gtb teBox i = Some v
          ∧ greatestInfluence_step gtb teBox (Z.of_nat <$> seq 0 226) i counts
            = Ok (<[source_town gtb teBox i := (v + 1)%Z]> counts).
Proof.
  intros Hshape Hwf.
  destruct (greatestInfluence_run gtb teBox Hshape Hwf)
    as (towns & Hrun & Hlen & Hvotes & _).
  exists towns. split; [exact Hrun|]. split; [done|]. split; [exact Hvotes|].
  intros i counts Hi Hcounts.
  exact (greatestInfluence_step_ok gtb teBox i counts Hshape Hwf Hi Hcounts).
Qed.

(** C10.  On a box of shape (226, 226, 226), the counts that
    [greatestInfluence] returns add up to 226: each of the 226 rows adds one
    to one counter. *)
Theorem greatestInfluence_total (teBox : Box A) :
  shape3 teBox = (226, 226, 226) → wf_box teBox →
  ∃ indicies towns,
    greatestInfluence gtb teBox = Ok (indicies, towns)
    ∧ sum_Z towns = 226%Z.
Proof.
  intros Hshape Hwf.
  destruct (greatestInfluence_run gtb teBox Hshape Hwf)
    as (towns & Hrun & _ & _ & Hsum).
  by exists (np_arange 226), towns.
Qed.

End Influence_claims.

Lemma tabulate_box_shape (n : nat) (f : nat → nat → nat → Z) :
  shape3 (tabulate_box n f) = (n, n, n).
Proof. unfold shape3, tabulate_box. cbn [planes dim1 dim2]. by rewrite length_fmap, length_seq. Qed.

Lemma tabulate_box_wf (n : nat) (f : nat → nat → nat → Z) : wf_box (tabulate_box n f).
Proof.
  unfold wf_box, tabulate_box. cbn [planes dim1 dim2].
  apply Forall_fmap, Forall_forall. intros i _. unfold compose.
  split; [by rewrite length_fmap, length_seq|].
  apply Forall_fmap, Forall_forall. intros c _. unfold compose.
  by rewrite length_fmap, length_seq.
Qed.

Lemma greatestInfluence_counts_witness :
  ∃ towns,
    greatestInfluence Z.gtb sample_box = Ok (Z.of_nat <$> seq 0 226, towns)
    ∧ length towns = 226
    ∧ (∀ s, s < 226 →
         towns !! s
         = Some (Z.of_nat (length (filter (λ i, source_town Z.gtb sample_box i = s)
                                     (seq 0 226)))))
    ∧ ∀ i counts, i < 226 → length counts = 226 →
        ∃ v, counts !! source_town Z.gtb sample_box i = Some v
          ∧ greatestInfluence_step Z.gtb sample_box (Z.of_nat <$> seq 0 226) i counts
            = Ok (<[source_town Z.gtb sample_box i := (v + 1)%Z]> counts).
Proof.
  apply (greatestInfluence_counts Z.gtb sample_box).
  - apply tabulate_box_shape.
  - apply tabulate_box_wf.
Defined.

Lemma greatestInfluence_total_witness :
  ∃ indicies towns,
    greatestInfluence Z.gtb sample_box = Ok (indicies, towns)
    ∧ sum_Z towns = 226%Z.
Proof.
  apply (greatestInfluence_total Z.gtb sample_box).
  - apply tabulate_box_shape.
  - apply tabulate_box_wf.
Defined.

Section TE_claims.
Context {RNG : NumpyRandom} {CALC : TECalculator}.

Lemma neighbour_cases (neighbor : string) :
  upper neighbor = "L"%string ∨ upper neighbor = "R"%string →
  (upper neighbor = "L"%string ∧ neighbour_sign neighbor = 1%Z)
  ∨ (upper neighbor = "R"%string ∧ neighbour_sign neighbor = (-1)%Z).
Proof.
  unfold neighbour_sign. intros [E|E]; rewrite E; [left | right]; done.
Qed.

Lemma ring_index_0 (n c : nat) : c < n → ring_index n c 0 = c.
Proof.
  intros Hc. unfold ring_index. rewrite Z.sub_0_r, Z.mod_small by lia. lia.
Qed.

(** C5.  For a neighbour "L", "R", "l" or "r" (any spelling whose upper case
    is "L" or "R"), [teCA] returns a matrix of the shape of [ca], and
    [teCA_Box] returns an array of shape
    [(ca.shape[0], ca.shape[1], ca.shape[1])] whose slice [[:, :, i]] holds,
    in each column [c], the stored result of the pass against the column [i]
    places away from [c]; at offset 0 each column is paired with itself. *)
Theorem teCA_result_shapes (ca : Matrix Z) (k : Z) (neighbor : string) (w : World) :
  upper neighbor = "L"%string ∨ upper neighbor = "R"%string →
  wf_matrix ca → per_position → resets →
  (∃ localTE w',
     teCA ca k neighbor w = Ok (localTE, w')
     ∧ shape localTE = shape ca ∧ wf_matrix localTE)
  ∧ (∃ localTE w',
       teCA_Box ca k neighbor w = Ok (localTE, w')
       ∧ shape3 localTE = (length (rows ca), cols ca, cols ca)
       ∧ wf_box localTE
       ∧ (∀ c i, c < cols ca → i < cols ca →
            line localTE c i
            = trunc <$> local_te k
                (column ca (ring_index (cols ca) c (neighbour_sign neighbor * Z.of_nat i)))
                (column ca c))
       ∧ (∀ c, c < cols ca →
            line localTE c 0 = trunc <$> local_te k (column ca c) (column ca c))).
Proof.
  intros Hn Hwf Hlen Hres. apply neighbour_cases in Hn. split.
  - destruct (teCA_run ca k (neighbour_sign neighbor) neighbor w)
      as (localTE & Hrun & Hcols & Hrows & Hwf' & _); [done..|].
    eexists. eexists. split; [exact Hrun|]. split; [|done].
    unfold shape. by rewrite Hcols, Hrows.
  - destruct (teCA_Box_run ca k (neighbour_sign neighbor) neighbor w)
      as (localTE & Hrun & Hshape & Hwf' & Hline); [done..|].
    eexists. eexists. split; [exact Hrun|].
    split; [done|]. split; [done|]. split; [exact Hline|].
    intros c Hc. rewrite Hline by lia.
    rewrite Z.mul_0_r, ring_index_0 by done. done.
Qed.

(** X1.  The calls of [teCA]: for a neighbour "L" or "R" in any case, the
    calculator is initialised, fed and queried once per column [c], in order,
    with column [c] as destination and column [(c - 1) mod n] ("L") or
    [(c + 1) mod n] ("R") as source, and column [c] of the result is what the
    calculator returned for that pair, cut to integers. *)
Theorem teCA_calls (ca : Matrix Z) (k : Z) (neighbor : string) (w : World) :
  upper neighbor = "L"%string ∨ upper neighbor = "R"%string →
  wf_matrix ca → per_position → resets →
  let n := Z.of_nat (cols ca) in
  let source c :=
    column ca (Z.to_nat (if decide (upper neighbor = "L"%string)
                         then (Z.of_nat c - 1) mod n
                         else (Z.of_nat c + 1) mod n)%Z) in
  ∃ localTE w',
    teCA ca k neighbor w = Ok (localTE, w')
    ∧ calc_log w'
      = calc_log w
        ++ concat ((λ c, [EvInitialise;
                          EvAddObservations (source c) (column ca c);
                          EvComputeLocal (source c) (column ca c)])
                   <$> seq 0 (cols ca))
    ∧ ∀ c, c < cols ca →
        column localTE c = trunc <$> local_te k (source c) (column ca c).
Proof.
  intros Hn Hwf Hlen Hres n source. apply neighbour_cases in Hn.
  destruct (teCA_run ca k (neighbour_sign neighbor) neighbor w)
    as (localTE & Hrun & _ & _ & _ & Hcol); [done..|].
  assert (Hsrc : ∀ c, column ca (ring_index (cols ca) c (neighbour_sign neighbor))
                      = source c).
  { intros c. unfold source, ring_index, n.
    destruct Hn as [[E ->] | [E ->]]; rewrite E.
    - by rewrite decide_True.
    - rewrite decide_False by done.
      by replace (Z.of_nat c - -1)%Z with (Z.of_nat c + 1)%Z by lia. }
  eexists. eexists. split; [exact Hrun|]. cbn [calc_log]. split.
  - f_equal. f_equal. apply list_fmap_ext. intros i c _.
    unfold pass_events. by rewrite Hsrc.
  - intros c Hc. rewrite <- Hsrc. by apply Hcol.
Qed.

End TE_claims.

Lemma ratio_per_position : per_position (CALC := ratio_calculator).
Proof. intros s y x. simpl. unfold ratio_local. by rewrite length_imap. Qed.

Lemma ratio_resets : resets (CALC := ratio_calculator).
Proof. by split. Qed.

Lemma ca52_wf : wf_matrix ca52.
Proof. unfold wf_matrix, ca52. simpl. repeat constructor. Qed.

Lemma teCA_result_shapes_witness :
  (∃ localTE w',
     teCA ca52 1 "l" world0 = Ok (localTE, w')
     ∧ shape localTE = shape ca52 ∧ wf_matrix localTE)
  ∧ (∃ localTE w',
       teCA_Box ca52 1 "l" world0 = Ok (localTE, w')
       ∧ shape3 localTE = (length (rows ca52), cols ca52, cols ca52)
       ∧ wf_box localTE
       ∧ (∀ c i, c < cols ca52 → i < cols ca52 →
            line localTE c i
            = trunc <$> local_te 1
                (column ca52 (ring_index (cols ca52) c (neighbour_sign "l" * Z.of_nat i)))
                (column ca52 c))
       ∧ (∀ c, c < cols ca52 →
            line localTE c 0 = trunc <$> local_te 1 (column ca52 c) (column ca52 c))).
Proof.
  apply (teCA_result_shapes ca52 1 "l" world0).
  - left. vm_compute. reflexivity.
  - exact ca52_wf.
  - exact ratio_per_position.
  - exact ratio_resets.
Defined.

Lemma teCA_calls_witness :
  let n := Z.of_nat (cols ca52) in
  let source c :=
    column ca52 (Z.to_nat (if decide (upper "R" = "L"%string)
                           then (Z.of_nat c - 1) mod n
                           else (Z.of_nat c + 1) mod n)%Z) in
  ∃ localTE w',
    teCA ca52 1 "R" world0 = Ok (localTE, w')
    ∧ calc_log w'
      = calc_log world0
        ++ concat ((λ c, [EvInitialise;
                          EvAddObservations (source c) (column ca52 c);
                          EvComputeLocal (source c) (column ca52 c)])
                   <$> seq 0 (cols ca52))
    ∧ ∀ c, c < cols ca52 →
        column localTE c = trunc <$> local_te 1 (source c) (column ca52 c).
Proof.
  apply (teCA_calls ca52 1 "R" world0).
  - right. vm_compute. reflexivity.
  - exact ca52_wf.
  - exact ratio_per_position.
  - exact ratio_resets.
Defined.

(** C2, where it fails.  On the five-step history of two cells, with
    neighbour "L" and a calculator that returns 0, 1/2, 0, 2, 1/2 for the
    first column, [teCA] returns 0, 0, 0, 2, 0 in that column: the result was
    allocated with an integer dtype, so it is not the calculator's output. *)
Theorem teCA_column_is_not_the_output :
  returned (teCA ca52 1 "L" world0)
  = Ok (mkMatrix 2 [[0; 0]; [0; 0]; [0; 1]; [2; 1]; [0; 0]]%Z)
  ∧ local_te 1 (column ca52 1) (column ca52 0) = [0; 1 # 2; 0; 2; 1 # 2]%Q
  ∧ inject_Z <$> column (mkMatrix 2 [[0; 0]; [0; 0]; [0; 1]; [2; 1]; [0; 0]]%Z) 0
    ≠ local_te 1 (column ca52 1) (column ca52 0).
Proof.
  split; [vm_compute; reflexivity|].
  split; [vm_compute; reflexivity|].
  vm_compute. discriminate.
Qed.

(** ** The reductions of the null test *)

Lemma reduce_axis2_cell {A B} (f : list A → B) (b : Box A) (t c : nat) :
  cell (reduce_axis2 f b) t c = f <$> (planes b !! t ≫= (.!! c)).
Proof.
  unfold cell, reduce_axis2. cbn [rows]. rewrite list_lookup_fmap.
  destruct (planes b !! t) as [p|]; simpl; [|done].
  by rewrite list_lookup_fmap.
Qed.

(** The values along the last axis at [(t, c)]: entry [i] is entry [t] of the
    line [b[:, c, i]]. *)
Lemma box_row {A} (b : Box A) (t c : nat) :
  wf_box b → t < length (planes b) → c < dim1 b →
  ∃ vals, planes b !! t ≫= (.!! c) = Some vals
    ∧ length vals = dim2 b
    ∧ ∀ i, i < dim2 b → vals !! i = line b c i !! t.
Proof.
  intros Hwf Ht Hc.
  destruct (lookup_lt_is_Some_2 (planes b) t Ht) as [p Hp].
  pose proof Hwf as Hwf0.
  eapply Forall_lookup in Hwf; [|done]. destruct Hwf as [Hlen Hr].
  destruct (lookup_lt_is_Some_2 p c) as [r Hrow]; [lia|].
  eapply Forall_lookup in Hr; [|done].
  exists r. rewrite Hp. simpl. split; [done|]. split; [done|].
  intros i Hi. rewrite line_lookup by done. unfold entry.
  rewrite Hp. simpl. by rewrite Hrow.
Qed.

Section NullTest_run.
Context {RNG : NumpyRandom} {CALC : TECalculator} {FLT : NumpyFloat}.

(** The whole of [teCA_null], for at least one trial. *)
Lemma teCA_null_run (ca : loc) (m : Matrix Z) (k : Z) (numTrials : nat) (w : World) :
  heap w !! ca = Some (Mat m) → wf_matrix m → per_position → resets →
  0 < numTrials →
  let g := np_random w in
  ∃ localTE h,
    teCA_null ca k numTrials w
    = Ok ((reduce_axis2 np_mean localTE, reduce_axis2 np_std localTE,
           reduce_axis2 list_max localTE),
          mkWorld (null_rng m g (numTrials * cols m)) h
            (calc_log w ++ null_events m g numTrials))
    ∧ h !! ca = Some (Mat m)
    ∧ shape3 localTE = (length (rows m), cols m, numTrials)
    ∧ wf_box localTE
    ∧ ∀ c i, c < cols m → i < numTrials →
        line localTE c i = trunc <$> local_te k (null_source m g i c) (column m c).
Proof.
  intros Hca Hwf Hlen Hres Hn g.
  destruct (teCA_null_trials_run ca m k numTrials w Hca Hwf Hlen Hres)
    as (localTE & h & Hrun & Hh & Hshape & Hwf' & Hline).
  exists localTE, h. split; [|done].
  unfold teCA_null. bind_step Hrun.
  unfold np_max_axis2.
  assert (Hd2 : dim2 localTE = numTrials) by exact (f_equal snd Hshape).
  rewrite decide_False by lia. done.
Qed.

(** The three matrices at [(t, c)]: the reductions of one sequence of
    [numTrials] integers, the stored results of the trials. *)
Lemma teCA_null_cells (localTE : Box Z) (m : Matrix Z) (k : Z) (g : rng)
    (numTrials t c : nat) :
  shape3 localTE = (length (rows m), cols m, numTrials) → wf_box localTE →
  wf_matrix m →
  (∀ c i, c < cols m → i < numTrials →
     line localTE c i = trunc <$> local_te k (null_source m g i c) (column m c)) →
  t < length (rows m) → c < cols m →
  ∃ vals, length vals = numTrials
    ∧ (∀ i, i < numTrials →
         vals !! i = trunc <$> (local_te k (null_source m g i c) (column m c) !! t))
    ∧ cell (reduce_axis2 np_mean localTE) t c = Some (np_mean vals)
    ∧ cell (reduce_axis2 np_std localTE) t c = Some (np_std vals)
    ∧ cell (reduce_axis2 list_max localTE) t c = Some (list_max vals).
Proof.
  intros Hshape Hwf' Hwf Hline Ht Hc.
  assert (Hd0 : length (planes localTE) = length (rows m))
    by exact (f_equal (λ p, p.1.1) Hshape).
  assert (Hd1 : dim1 localTE = cols m) by exact (f_equal (λ p, p.1.2) Hshape).
  assert (Hd2 : dim2 localTE = numTrials) by exact (f_equal snd Hshape).
  destruct (box_row localTE t c Hwf') as (vals & Hvals & Hlen & Hentry); [lia..|].
  exists vals. split; [lia|]. split.
  - intros i Hi. rewrite Hentry by lia. rewrite Hline by done.
    by rewrite list_lookup_fmap.
  - rewrite !reduce_axis2_cell, Hvals. done.
Qed.

End NullTest_run.

(** Two boxes of one shape with the same lines are the same box. *)
Lemma box_ext {A} (b1 b2 : Box A) :
  shape3 b1 = shape3 b2 → wf_box b1 → wf_box b2 →
  (∀ c i, c < dim1 b1 → i < dim2 b1 → line b1 c i = line b2 c i) →
  b1 = b2.
Proof.
  intros Hshape Hwf1 Hwf2 Hline.
  assert (Hd0 : length (planes b1) = length (planes b2))
    by exact (f_equal (λ p, p.1.1) Hshape).
  assert (Hd1 : dim1 b1 = dim1 b2) by exact (f_equal (λ p, p.1.2) Hshape).
  assert (Hd2 : dim2 b1 = dim2 b2) by exact (f_equal snd Hshape).
  assert (Hplanes : planes b1 = planes b2).
  { apply list_eq. intros t.
    destruct (planes b1 !! t) as [p1|] eqn:E1; destruct (planes b2 !! t) as [p2|] eqn:E2.
    - f_equal.
      pose proof (Forall_lookup_1 _ _ _ _ Hwf1 E1) as [Hp1 Hr1].
      pose proof (Forall_lookup_1 _ _ _ _ Hwf2 E2) as [Hp2 Hr2].
      apply list_eq. intros c.
      destruct (p1 !! c) as [r1|] eqn:F1; destruct (p2 !! c) as [r2|] eqn:F2.
      + f_equal.
        pose proof (Forall_lookup_1 _ _ _ _ Hr1 F1) as Hl1.
        pose proof (Forall_lookup_1 _ _ _ _ Hr2 F2) as Hl2.
        simpl in Hl1, Hl2.
        assert (Hc : c < dim1 b1) by (apply lookup_lt_Some in F1; lia).
        apply list_eq. intros i.
        destruct (decide (i < dim2 b1)) as [Hi|Hi].
        * pose proof (line_lookup b1 c i t Hwf1 Hc Hi) as L1.
          pose proof (line_lookup b2 c i t Hwf2) as L2.
          rewrite <- Hd1, <- Hd2 in L2. specialize (L2 Hc Hi).
          rewrite (Hline c i Hc Hi) in L1. rewrite L1 in L2.
          unfold entry in L2. rewrite E1, E2 in L2. simpl in L2.
          by rewrite F1, F2 in L2.
        * rewrite !lookup_ge_None_2; [done|lia..].
      + apply lookup_lt_Some in F1. apply lookup_ge_None in F2. lia.
      + apply lookup_ge_None in F1. apply lookup_lt_Some in F2. lia.
      + done.
    - apply lookup_lt_Some in E1. apply lookup_ge_None in E2. lia.
    - apply lookup_ge_None in E1. apply lookup_lt_Some in E2. lia.
    - done. }
  destruct b1, b2. simpl in *. by subst.
Qed.

Section NullTest_claims.
Context {RNG : NumpyRandom} {CALC : TECalculator} {FLT : NumpyFloat}.

(** C8.  The result arrays of [teCA], [teCA_Box] and [teCA_null] have an
    integer dtype, so every stored entry is the value that the calculator
    returned at that position, cut toward zero: the entries of [teCA]'s and
    [teCA_Box]'s results and of [teCA_null]'s maximum are integers, and the
    mean and the standard deviation of [teCA_null] are taken over the integers
    that were stored, not over the calculator's values. *)
Theorem stored_values_are_truncated (ca : Matrix Z) (at_ : loc) (k : Z)
    (neighbor : string) (numTrials : nat) (w : World) :
  upper neighbor = "L"%string ∨ upper neighbor = "R"%string →
  wf_matrix ca → per_position → resets →
  heap w !! at_ = Some (Mat ca) → 0 < numTrials →
  let n := cols ca in
  let sign := neighbour_sign neighbor in
  (∃ localTE w',
     teCA ca k neighbor w = Ok (localTE, w')
     ∧ ∀ t c, c < n →
         cell localTE t c
         = trunc <$> (local_te k (column ca (ring_index n c sign)) (column ca c) !! t))
  ∧ (∃ localTE w',
       teCA_Box ca k neighbor w = Ok (localTE, w')
       ∧ ∀ t c i, c < n → i < n →
           entry localTE t c i
           = trunc <$> (local_te k (column ca (ring_index n c (sign * Z.of_nat i)))
                          (column ca c) !! t))
  ∧ (∃ localTE_null localTE_std localTE_max w',
       teCA_null at_ k numTrials w = Ok ((localTE_null, localTE_std, localTE_max), w')
       ∧ ∀ t c, t < length (rows ca) → c < n →
           ∃ stored : list Z,
             length stored = numTrials
             ∧ (∀ i, i < numTrials →
                  stored !! i
                  = trunc <$> (local_te k (null_source ca (np_random w) i c)
                                 (column ca c) !! t))
             ∧ cell localTE_null t c = Some (np_mean stored)
             ∧ cell localTE_std t c = Some (np_std stored)
             ∧ cell localTE_max t c = Some (list_max stored)).
Proof.
  intros Hn Hwf Hlen Hres Hat Htrials n sign. apply neighbour_cases in Hn.
  split; [|split].
  - destruct (teCA_run ca k sign neighbor w)
      as (localTE & Hrun & Hcols & Hrows & Hwf' & Hcol); [done..|].
    eexists. eexists. split; [exact Hrun|].
    intros t c Hc. unfold cell.
    rewrite <- column_lookup by (done || lia).
    rewrite Hcol by done. by rewrite list_lookup_fmap.
  - destruct (teCA_Box_run ca k sign neighbor w)
      as (localTE & Hrun & Hshape & Hwf' & Hline); [done..|].
    assert (Hd1 : dim1 localTE = cols ca) by exact (f_equal (λ p, p.1.2) Hshape).
    assert (Hd2 : dim2 localTE = cols ca) by exact (f_equal snd Hshape).
    eexists. eexists. split; [exact Hrun|].
    intros t c i Hc Hi.
    rewrite <- line_lookup by (done || lia).
    rewrite Hline by done. by rewrite list_lookup_fmap.
  - destruct (teCA_null_run at_ ca k numTrials w Hat Hwf Hlen Hres Htrials)
      as (localTE & h & Hrun & _ & Hshape & Hwf' & Hline).
    eexists. eexists. eexists. eexists. split; [exact Hrun|].
    intros t c Ht Hc.
    by apply (teCA_null_cells localTE ca k (np_random w) numTrials t c).
Qed.

(** C6.  In every trial of [teCA_null] and for every column [c], the
    calculator receives column [c] of [ca] as destination and a reordering of
    that column as source; the shuffle works on a copy, and the matrix [ca] is
    the same after the call as before. *)
Theorem teCA_null_shuffles_copies (ca : loc) (m : Matrix Z) (k : Z)
    (numTrials : nat) (w : World) :
  heap w !! ca = Some (Mat m) → wf_matrix m →
  per_position → resets → shuffle_permutes → 0 < numTrials →
  let source i c := null_source m (np_random w) i c in
  ∃ result w',
    teCA_null ca k numTrials w = Ok (result, w')
    ∧ calc_log w'
      = calc_log w
        ++ concat ((λ i, concat ((λ c, [EvInitialise;
                                        EvAddObservations (source i c) (column m c);
                                        EvComputeLocal (source i c) (column m c)])
                                  <$> seq 0 (cols m)))
                   <$> seq 0 numTrials)
    ∧ (∀ i c, source i c ≡ₚ column m c)
    ∧ heap w' !! ca = Some (Mat m).
Proof.
  intros Hca Hwf Hlen Hres Hperm Htrials source.
  destruct (teCA_null_run ca m k numTrials w Hca Hwf Hlen Hres Htrials)
    as (localTE & h & Hrun & Hh & _).
  eexists. eexists. split; [exact Hrun|]. cbn [calc_log heap].
  split; [done|]. split; [|done].
  intros i c. apply Hperm.
Qed.

(** C7.  With the generator in the same state, two runs of [createCA] on
    equal arguments return the same matrix, and two runs of [teCA_null] on
    equal arguments return the same three matrices, whatever else the two
    worlds hold (other arrays, the place of [ca], the calculator's log); the
    calculator is a function of what it is given. *)
Theorem equal_seed_equal_outputs (rule : gmap string string) (timesteps n : nat)
    (ca1 ca2 : loc) (m : Matrix Z) (k : Z) (numTrials : nat) (w1 w2 : World) :
  np_random w1 = np_random w2 →
  rule_table rule →
  length (randint (np_random w1) 0 2 n).1 = n →
  binary (randint (np_random w1) 0 2 n).1 →
  heap w1 !! ca1 = Some (Mat m) → heap w2 !! ca2 = Some (Mat m) →
  wf_matrix m → per_position → resets → 0 < numTrials →
  (∃ ca w1' w2',
     createCA rule timesteps n w1 = Ok (ca, w1')
     ∧ createCA rule timesteps n w2 = Ok (ca, w2')
     ∧ np_random w1' = np_random w2')
  ∧ (∃ result w1' w2',
       teCA_null ca1 k numTrials w1 = Ok (result, w1')
       ∧ teCA_null ca2 k numTrials w2 = Ok (result, w2')
       ∧ np_random w1' = np_random w2').
Proof.
  intros Hseed Hrule Hlen Hbin Hca1 Hca2 Hwf Hpos Hres Htrials. split.
  - destruct (createCA_run rule timesteps n w1 Hrule Hlen Hbin) as [h1 Hrun1].
    rewrite Hseed in Hlen, Hbin.
    destruct (createCA_run rule timesteps n w2 Hrule Hlen Hbin) as [h2 Hrun2].
    rewrite <- Hseed in Hrun2.
    eexists. eexists. eexists. split; [exact Hrun1|]. split; [exact Hrun2|]. done.
  - destruct (teCA_null_run ca1 m k numTrials w1 Hca1 Hwf Hpos Hres Htrials)
      as (box1 & h1 & Hrun1 & _ & Hshape1 & Hwf1 & Hline1).
    destruct (teCA_null_run ca2 m k numTrials w2 Hca2 Hwf Hpos Hres Htrials)
      as (box2 & h2 & Hrun2 & _ & Hshape2 & Hwf2 & Hline2).
    rewrite <- Hseed in Hrun2, Hline2.
    assert (Hbox : box1 = box2).
    { apply box_ext; [congruence|done..|].
      intros c i Hc Hi.
      assert (Hd1 : dim1 box1 = cols m) by exact (f_equal (λ p, p.1.2) Hshape1).
      assert (Hd2 : dim2 box1 = numTrials) by exact (f_equal snd Hshape1).
      rewrite Hline1, Hline2 by lia. done. }
    subst box2.
    eexists. eexists. eexists. split; [exact Hrun1|]. split; [exact Hrun2|]. done.
Qed.

End NullTest_claims.

Lemma lcg_shuffle_permutes : shuffle_permutes (RNG := lcg).
Proof.
  intros g a. cbn [shuffle lcg fst]. unfold lcg_shuffle. cbn [fst].
  unfold rotate. by rewrite Permutation_app_comm, take_drop.
Qed.

Lemma stored_values_are_truncated_witness :
  (∃ localTE w',
     teCA ca52 1 "L" world1 = Ok (localTE, w')
     ∧ ∀ t c, c < cols ca52 →
         cell localTE t c
         = trunc <$> (local_te 1 (column ca52 (ring_index (cols ca52) c (neighbour_sign "L")))
                        (column ca52 c) !! t))
  ∧ (∃ localTE w',
       teCA_Box ca52 1 "L" world1 = Ok (localTE, w')
       ∧ ∀ t c i, c < cols ca52 → i < cols ca52 →
           entry localTE t c i
           = trunc <$> (local_te 1
                          (column ca52 (ring_index (cols ca52) c
                                          (neighbour_sign "L" * Z.of_nat i)))
                          (column ca52 c) !! t))
  ∧ (∃ localTE_null localTE_std localTE_max w',
       teCA_null 7 1 2 world1 = Ok ((localTE_null, localTE_std, localTE_max), w')
       ∧ ∀ t c, t < length (rows ca52) → c < cols ca52 →
           ∃ stored : list Z,
             length stored = 2
             ∧ (∀ i, i < 2 →
                  stored !! i
                  = trunc <$> (local_te 1 (null_source ca52 (np_random world1) i c)
                                 (column ca52 c) !! t))
             ∧ cell localTE_null t c = Some (np_mean stored)
             ∧ cell localTE_std t c = Some (np_std stored)
             ∧ cell localTE_max t c = Some (list_max stored)).
Proof.
  apply (stored_values_are_truncated ca52 7 1 "L" 2 world1).
  - left. vm_compute. reflexivity.
  - exact ca52_wf.
  - exact ratio_per_position.
  - exact ratio_resets.
  - vm_compute. reflexivity.
  - lia.
Defined.

Lemma teCA_null_shuffles_copies_witness :
  ∃ result w',
    teCA_null 7 1 2 world1 = Ok (result, w')
    ∧ calc_log w'
      = calc_log world1
        ++ concat ((λ i, concat ((λ c, [EvInitialise;
                                        EvAddObservations
                                          (null_source ca52 (np_random world1) i c)
                                          (column ca52 c);
                                        EvComputeLocal
                                          (null_source ca52 (np_random world1) i c)
                                          (column ca52 c)])
                                  <$> seq 0 (cols ca52)))
                   <$> seq 0 2)
    ∧ (∀ i c, null_source ca52 (np_random world1) i c ≡ₚ column ca52 c)
    ∧ heap w' !! 7 = Some (Mat ca52).
Proof.
  apply (teCA_null_shuffles_copies 7 ca52 1 2 world1).
  - vm_compute. reflexivity.
  - exact ca52_wf.
  - exact ratio_per_position.
  - exact ratio_resets.
  - exact lcg_shuffle_permutes.
  - lia.
Defined.

Lemma equal_seed_equal_outputs_witness :
  (∃ ca w1' w2',
     createCA rule90 3 6 world1 = Ok (ca, w1')
     ∧ createCA rule90 3 6 world2 = Ok (ca, w2')
     ∧ np_random w1' = np_random w2')
  ∧ (∃ result w1' w2',
       teCA_null 7 1 2 world1 = Ok (result, w1')
       ∧ teCA_null 11 1 2 world2 = Ok (result, w2')
       ∧ np_random w1' = np_random w2').
Proof.
  apply (equal_seed_equal_outputs rule90 3 6 7 11 ca52 1 2 world1 world2).
  - reflexivity.
  - exact rule90_table.
  - vm_compute. reflexivity.
  - vm_compute.
    repeat first [apply Forall_nil_2 | apply Forall_cons_2; [first [by left | by right]|]].
  - vm_compute. reflexivity.
  - vm_compute. reflexivity.
  - exact ca52_wf.
  - exact ratio_per_position.
  - exact ratio_resets.
  - lia.
Defined.

(** C3, where it fails.  On the five-step history of two cells and two
    trials, the calculator returns 1/2 and 0 at time 1 of column 0; their mean
    is 1/4 and their maximum 1/2, but [teCA_null] returns mean 0 and maximum 0
    there: the trial results were stored in an array of integers before they
    were reduced. *)
Theorem teCA_null_reduces_stored_integers :
  returned (teCA_null 7 1 2 world1)
  = Ok (mkMatrix 2 [[0 # 2; 0 # 2]; [0 # 2; 0 # 2]; [0 # 2; 1 # 2];
                    [2 # 2; 1 # 2]; [0 # 2; 0 # 2]]%Q,
        mkMatrix 2 [[0 # 4000000000; 0 # 4000000000];
                    [0 # 4000000000; 0 # 4000000000];
                    [0 # 4000000000; 2000000000 # 4000000000];
                    [4000000000 # 4000000000; 2000000000 # 4000000000];
                    [0 # 4000000000; 0 # 4000000000]]%Q,
        mkMatrix 2 [[0; 0]; [0; 0]; [0; 1]; [2; 1]; [0; 0]]%Z)
  ∧ local_te 1 (null_source ca52 42%Z 0 0) (column ca52 0) !! 1 = Some (1 # 2)%Q
  ∧ local_te 1 (null_source ca52 42%Z 1 0) (column ca52 0) !! 1 = Some 0%Q
  ∧ (0 # 2 < ((1 # 2) + 0) / 2)%Q
  ∧ (inject_Z 0 < 1 # 2)%Q.
Proof.
  split; [vm_compute; reflexivity|].
  split; [vm_compute; reflexivity|].
  split; [vm_compute; reflexivity|].
  split; vm_compute; reflexivity.
Qed.

(** * Sample runs *)

Example np_roll_sample :
  np_roll 1 [1; 2; 3; 4]%Z = [4; 1; 2; 3]%Z
  ∧ np_roll (-1) [1; 2; 3; 4]%Z = [2; 3; 4; 1]%Z
  ∧ np_roll 6 [1; 2; 3; 4]%Z = [3; 4; 1; 2]%Z.
Proof. repeat split. Qed.

Example trunc_sample : trunc (7 # 2) = 3%Z ∧ trunc (-7 # 2) = (-3)%Z.
Proof. split; reflexivity. Qed.

(** Rule 90 on six cells, three steps from the row drawn with state 42. *)
Example createCA_rule90 :
  returned (createCA rule90 3 6 world0)
  = Ok (mkMatrix 6 [[1; 1; 1; 1; 0; 1]; [0; 0; 0; 1; 0; 1];
                    [1; 0; 1; 0; 0; 0]; [0; 0; 0; 1; 0; 1]]%Z).
Proof. vm_compute. reflexivity. Qed.

(** The run leaves two arrays: the drawn row, untouched, and [ca_new] with
    the last row. *)
Example createCA_rule90_heap :
  match createCA rule90 3 6 world0 with
  | Ok (_, w) => map_to_list (heap w)
  | Raise _ => []
  end
  = [(1, Vec [0; 0; 0; 1; 0; 1]%Z); (0, Vec [1; 1; 1; 1; 0; 1]%Z)].
Proof. vm_compute. reflexivity. Qed.

(** A rule without the neighbourhood that comes up. *)
Example createCA_missing_key : returned (createCA ∅ 1 2 world0) = Raise (KeyError "111").
Proof. vm_compute. reflexivity. Qed.

(** Without a trial there is no maximum to take. *)
Example teCA_null_no_trial : returned (teCA_null 7 1 0 world1) = Raise ValueError.
Proof. vm_compute. reflexivity. Qed.

(** On a box of two rows the town 225 that [indicies[-1]] names has no counter. *)
Example greatestInfluence_small_box :
  greatestInfluence Z.gtb (mkBox 2 2 [[[0; 9]; [0; 0]]; [[5; 1]; [0; 0]]]%Z)
  = Raise IndexError.
Proof. vm_compute. reflexivity. Qed.

Example teCA_Box_sample :
  returned (teCA_Box ca52 1 "r" world0)
  = Ok (mkBox 2 2 [[[0; 0]; [0; 0]]; [[0; 0]; [0; 0]]; [[0; 0]; [0; 1]];
                   [[0; 2]; [0; 1]]; [[0; 0]; [0; 0]]]%Z).
Proof. vm_compute. reflexivity. Qed.

(** * Further properties of [teCA] and [teCA_Box] *)

Lemma trunc_small (q : Q) : (-1 < q)%Q → (q < 1)%Q → trunc q = 0%Z.
Proof.
  destruct q as [a d]. unfold Qlt, trunc. simpl. intros Hlo Hhi.
  destruct (Z_lt_le_dec a 0) as [Hneg|Hpos].
  - rewrite <- (Z.opp_involutive a), Z.quot_opp_l by lia.
    rewrite Z.quot_small by lia. done.
  - apply Z.quot_small. lia.
Qed.

Lemma trunc_integer (q : Q) (z : Z) : (q == inject_Z z)%Q → trunc q = z.
Proof.
  destruct q as [a d]. unfold Qeq, trunc, inject_Z. simpl. intros E.
  rewrite Z.mul_1_r in E. subst a. apply Z.quot_mul. lia.
Qed.

Lemma concat_length_const {A} (f : nat → list A) (n k : nat) :
  (∀ c, length (f c) = k) → length (concat (f <$> seq 0 n)) = n * k.
Proof.
  intros Hf. induction n as [|n IH]; [done|].
  rewrite concat_seq_S, length_app, IH, Hf. lia.
Qed.

Section TE_more.
Context {RNG : NumpyRandom} {CALC : TECalculator}.

(** X2.  The calls of [teCA_Box]: for a neighbour "L" or "R" in any case the
    calculator makes one pass per pair of a column [c] and an offset [i], the
    columns in order and the offsets in order within each column, with column
    [c] as destination and column [(c - i) mod n] ("L") or [(c + i) mod n]
    ("R") as source: [3 * n * n] calls in all.  The generator and the arrays
    of the heap are left as they were. *)
Theorem teCA_Box_calls (ca : Matrix Z) (k : Z) (neighbor : string) (w : World) :
  upper neighbor = "L"%string ∨ upper neighbor = "R"%string →
  wf_matrix ca → per_position → resets →
  let n := Z.of_nat (cols ca) in
  let source c i :=
    column ca (Z.to_nat (if decide (upper neighbor = "L"%string)
                         then (Z.of_nat c - Z.of_nat i) mod n
                         else (Z.of_nat c + Z.of_nat i) mod n)%Z) in
  ∃ localTE w',
    teCA_Box ca k neighbor w = Ok (localTE, w')
    ∧ np_random w' = np_random w
    ∧ heap w' = heap w
    ∧ calc_log w'
      = calc_log w
        ++ concat ((λ c, concat ((λ i, [EvInitialise;
                                        EvAddObservations (source c i) (column ca c);
                                        EvComputeLocal (source c i) (column ca c)])
                                  <$> seq 0 (cols ca)))
                   <$> seq 0 (cols ca))
    ∧ length (calc_log w') = length (calc_log w) + 3 * cols ca * cols ca.
Proof.
  intros Hn Hwf Hlen Hres n source. apply neighbour_cases in Hn.
  destruct (teCA_Box_run ca k (neighbour_sign neighbor) neighbor w)
    as (localTE & Hrun & _); [done..|].
  assert (Hsrc : ∀ c i,
    column ca (ring_index (cols ca) c (neighbour_sign neighbor * Z.of_nat i)) = source c i).
  { intros c i. unfold source, ring_index, n.
    destruct Hn as [[E ->] | [E ->]]; rewrite E.
    - rewrite decide_True by done. by rewrite Z.mul_1_l.
    - rewrite decide_False by done.
      by replace (Z.of_nat c - -1 * Z.of_nat i)%Z with (Z.of_nat c + Z.of_nat i)%Z by lia. }
  assert (Hlog :
    concat ((λ c, concat ((λ i, pass_events
               (column ca (ring_index (cols ca) c (neighbour_sign neighbor * Z.of_nat i)))
               (column ca c)) <$> seq 0 (cols ca))) <$> seq 0 (cols ca))
    = concat ((λ c, concat ((λ i, [EvInitialise;
                                   EvAddObservations (source c i) (column ca c);
                                   EvComputeLocal (source c i) (column ca c)])
                             <$> seq 0 (cols ca))) <$> seq 0 (cols ca))).
  { f_equal. apply list_fmap_ext. intros j c _. f_equal.
    apply list_fmap_ext. intros j' i _. unfold pass_events. by rewrite Hsrc. }
  eexists. eexists. split; [exact Hrun|]. cbn [np_random heap calc_log].
  split; [done|]. split; [done|]. split; [by rewrite Hlog|].
  rewrite Hlog, length_app. f_equal.
  rewrite (concat_length_const _ (cols ca) (cols ca * 3)); [lia|].
  intros c. rewrite (concat_length_const _ (cols ca) 3); [lia|done].
Qed.

(** X3.  With at least two columns, the slice [[:, :, 1]] of [teCA_Box]'s
    result is [teCA]'s result for the same neighbour. *)
Theorem teCA_Box_offset_one (ca : Matrix Z) (k : Z) (neighbor : string) (w : World) :
  upper neighbor = "L"%string ∨ upper neighbor = "R"%string →
  wf_matrix ca → per_position → resets → 1 < cols ca →
  ∃ localTE box,
    returned (teCA ca k neighbor w) = Ok localTE
    ∧ returned (teCA_Box ca k neighbor w) = Ok box
    ∧ ∀ c, c < cols ca → line box c 1 = column localTE c.
Proof.
  intros Hn Hwf Hlen Hres Hcols. apply neighbour_cases in Hn.
  destruct (teCA_run ca k (neighbour_sign neighbor) neighbor w)
    as (localTE & Hrun & _ & _ & _ & Hcol); [done..|].
  destruct (teCA_Box_run ca k (neighbour_sign neighbor) neighbor w)
    as (box & Hbox & _ & _ & Hline); [done..|].
  exists localTE, box. rewrite Hrun, Hbox. split; [done|]. split; [done|].
  intros c Hc. rewrite Hline, Hcol by lia. by rewrite Z.mul_1_r.
Qed.

(** X4.  The boxes for "L" and for "R" hold the same lines mirrored: they
    agree at offset 0, and offset [i] of one is offset [n - i] of the other. *)
Theorem teCA_Box_mirror (ca : Matrix Z) (k : Z) (left right : string) (w : World) :
  upper left = "L"%string → upper right = "R"%string →
  wf_matrix ca → per_position → resets →
  ∃ boxL boxR,
    returned (teCA_Box ca k left w) = Ok boxL
    ∧ returned (teCA_Box ca k right w) = Ok boxR
    ∧ (∀ c, c < cols ca → line boxL c 0 = line boxR c 0)
    ∧ ∀ c i, c < cols ca → 0 < i < cols ca →
        line boxL c i = line boxR c (cols ca - i).
Proof.
  intros HL HR Hwf Hlen Hres.
  destruct (teCA_Box_run ca k 1 left w) as (boxL & HrunL & _ & _ & HlineL);
    [by left|done..|].
  destruct (teCA_Box_run ca k (-1) right w) as (boxR & HrunR & _ & _ & HlineR);
    [by right|done..|].
  exists boxL, boxR. rewrite HrunL, HrunR. split; [done|]. split; [done|]. split.
  - intros c Hc. rewrite HlineL, HlineR by lia. done.
  - intros c i Hc Hi. rewrite HlineL, HlineR by lia.
    do 2 f_equal. unfold ring_index. f_equal.
    replace (Z.of_nat c - -1 * Z.of_nat (cols ca - i))%Z
      with (Z.of_nat c - 1 * Z.of_nat i + 1 * Z.of_nat (cols ca))%Z by lia.
    by rewrite Z_mod_plus_full.
Qed.

(** X5.  What survives the integer result array of [teCA]: a value that the
    calculator returns strictly between -1 and 1 is stored as 0, and a value
    that is an integer is stored as it is. *)
Theorem teCA_small_values_vanish (ca : Matrix Z) (k : Z) (neighbor : string) (w : World) :
  upper neighbor = "L"%string ∨ upper neighbor = "R"%string →
  wf_matrix ca → per_position → resets →
  ∃ localTE,
    returned (teCA ca k neighbor w) = Ok localTE
    ∧ ∀ t c v, c < cols ca →
        local_te k (column ca (ring_index (cols ca) c (neighbour_sign neighbor)))
          (column ca c) !! t = Some v →
        ((-1 < v)%Q → (v < 1)%Q → cell localTE t c = Some 0%Z)
        ∧ (∀ z, (v == inject_Z z)%Q → cell localTE t c = Some z).
Proof.
  intros Hn Hwf Hlen Hres. apply neighbour_cases in Hn.
  destruct (teCA_run ca k (neighbour_sign neighbor) neighbor w)
    as (localTE & Hrun & Hcols & _ & Hwf' & Hcol); [done..|].
  exists localTE. rewrite Hrun. split; [done|].
  intros t c v Hc Hv.
  assert (Hcell : cell localTE t c = Some (trunc v)).
  { unfold cell. rewrite <- column_lookup by (done || lia).
    rewrite Hcol by done. by rewrite list_lookup_fmap, Hv. }
  rewrite Hcell. split.
  - intros Hlo Hhi. by rewrite trunc_small.
  - intros z Hz. by rewrite (trunc_integer v z).
Qed.

(** X6.  On a matrix without columns neither loop runs a pass: [teCA] and
    [teCA_Box] return an empty result and leave the world as it is, whatever
    the neighbour is, also one that is neither "L" nor "R". *)
Theorem teCA_no_column (ca : Matrix Z) (k : Z) (neighbor : string) (w : World) :
  cols ca = 0 →
  teCA ca k neighbor w = Ok (mkMatrix 0 (replicate (length (rows ca)) []), w)
  ∧ teCA_Box ca k neighbor w = Ok (mkBox 0 0 (replicate (length (rows ca)) []), w).
Proof.
  intros Hc. unfold teCA, teCA_Box. rewrite Hc. done.
Qed.

(** A pass whose values are neither one per time step nor a single value
    cannot be assigned to the column. *)
Lemma teCA_column_mismatch (ca localTE : Matrix Z) (neighb : string) (shift : Z)
    (c : nat) (teCalc : calc_state) (y : option (list Z)) (w : World) :
  (neighb = "L"%string ∧ shift = 1%Z) ∨ (neighb = "R"%string ∧ shift = (-1)%Z) →
  wf_matrix ca → c < cols ca → c < cols localTE →
  let source := column ca (ring_index (cols ca) c shift) in
  let dest := column ca c in
  let vals := calc_computeLocal
                (calc_addObservations (calc_initialise teCalc) source dest) source dest in
  length vals ≠ length (rows localTE) → length vals ≠ 1 →
  teCA_column ca neighb c (localTE, teCalc, y) w = Raise ValueError.
Proof.
  intros Hn Hwf Hc Hc' source dest vals Hlen Hone.
  assert (Hx : get_column ca c w = Ok (dest, w)) by by apply get_column_ok.
  assert (Hy : bind (get_column (np_roll_axis1 shift ca) c) (λ v, ret (Some v)) w
               = Ok (Some source, w)).
  { unfold bind. rewrite get_column_ok by done. by rewrite column_np_roll_axis1. }
  assert (Hcast : ∀ w0, cast_to_slice (length (rows localTE)) vals w0 = Raise ValueError).
  { intros w0. unfold cast_to_slice. rewrite decide_False by done.
    destruct vals as [|v [|v' vals']]; simpl in *; done. }
  unfold teCA_column. bind_step Hx.
  destruct Hn as [[-> ->] | [-> ->]].
  - rewrite decide_True by done. bind_step Hy.
    rewrite decide_False by done.
    unfold bind at 1, ret at 1. unfold bind at 1, read_local, ret at 1.
    unfold bind at 1. rewrite run_calculator_ok.
    unfold set_matrix_column. rewrite decide_True by done.
    unfold bind at 1. unfold bind at 1. fold source dest vals. by rewrite Hcast.
  - rewrite decide_False by done.
    unfold bind at 1, ret at 1.
    rewrite decide_True by done. bind_step Hy.
    unfold bind at 1, read_local, ret at 1.
    unfold bind at 1. rewrite run_calculator_ok.
    unfold set_matrix_column. rewrite decide_True by done.
    unfold bind at 1. unfold bind at 1. fold source dest vals. by rewrite Hcast.
Qed.

(** X7.  When the calculator answers the first pass with a number of values
    that is neither the number of time steps nor one, [teCA] ends in a
    [ValueError]: the values cannot be assigned to the column, and there is
    no result. *)
Theorem teCA_length_mismatch (ca : Matrix Z) (k : Z) (neighbor : string) (w : World) :
  upper neighbor = "L"%string ∨ upper neighbor = "R"%string →
  wf_matrix ca → 0 < cols ca →
  let vals := local_te k (column ca (ring_index (cols ca) 0 (neighbour_sign neighbor)))
                (column ca 0) in
  length vals ≠ length (rows ca) → length vals ≠ 1 →
  teCA ca k neighbor w = Raise ValueError.
Proof.
  intros Hn Hwf Hcols vals Hlen Hone. apply neighbour_cases in Hn.
  unfold teCA. apply bind_raise, for_range_raise; [done|].
  apply (teCA_column_mismatch ca _ (upper neighbor) (neighbour_sign neighbor)); try done.
  cbn [rows np_zeros2]. by rewrite length_replicate.
Qed.

End TE_more.

Lemma teCA_Box_calls_witness :
  let n := Z.of_nat (cols ca52) in
  let source c i :=
    column ca52 (Z.to_nat (if decide (upper "l" = "L"%string)
                           then (Z.of_nat c - Z.of_nat i) mod n
                           else (Z.of_nat c + Z.of_nat i) mod n)%Z) in
  ∃ localTE w',
    teCA_Box ca52 1 "l" world0 = Ok (localTE, w')
    ∧ np_random w' = np_random world0
    ∧ heap w' = heap world0
    ∧ calc_log w'
      = calc_log world0
        ++ concat ((λ c, concat ((λ i, [EvInitialise;
                                        EvAddObservations (source c i) (column ca52 c);
                                        EvComputeLocal (source c i) (column ca52 c)])
                                  <$> seq 0 (cols ca52)))
                   <$> seq 0 (cols ca52))
    ∧ length (calc_log w') = length (calc_log world0) + 3 * cols ca52 * cols ca52.
Proof.
  apply (teCA_Box_calls ca52 1 "l" world0).
  - left. vm_compute. reflexivity.
  - exact ca52_wf.
  - exact ratio_per_position.
  - exact ratio_resets.
Defined.

Lemma teCA_Box_offset_one_witness :
  ∃ localTE box,
    returned (teCA ca52 1 "R" world0) = Ok localTE
    ∧ returned (teCA_Box ca52 1 "R" world0) = Ok box
    ∧ ∀ c, c < cols ca52 → line box c 1 = column localTE c.
Proof.
  apply (teCA_Box_offset_one ca52 1 "R" world0).
  - right. vm_compute. reflexivity.
  - exact ca52_wf.
  - exact ratio_per_position.
  - exact ratio_resets.
  - vm_compute. lia.
Defined.

Lemma teCA_Box_mirror_witness :
  ∃ boxL boxR,
    returned (teCA_Box ca52 1 "l" world0) = Ok boxL
    ∧ returned (teCA_Box ca52 1 "r" world0) = Ok boxR
    ∧ (∀ c, c < cols ca52 → line boxL c 0 = line boxR c 0)
    ∧ ∀ c i, c < cols ca52 → 0 < i < cols ca52 →
        line boxL c i = line boxR c (cols ca52 - i).
Proof.
  apply (teCA_Box_mirror ca52 1 "l" "r" world0).
  - vm_compute. reflexivity.
  - vm_compute. reflexivity.
  - exact ca52_wf.
  - exact ratio_per_position.
  - exact ratio_resets.
Defined.

Lemma teCA_small_values_vanish_witness :
  ∃ localTE,
    returned (teCA ca52 1 "L" world0) = Ok localTE
    ∧ ∀ t c v, c < cols ca52 →
        local_te 1 (column ca52 (ring_index (cols ca52) c (neighbour_sign "L")))
          (column ca52 c) !! t = Some v →
        ((-1 < v)%Q → (v < 1)%Q → cell localTE t c = Some 0%Z)
        ∧ (∀ z, (v == inject_Z z)%Q → cell localTE t c = Some z).
Proof.
  apply (teCA_small_values_vanish ca52 1 "L" world0).
  - left. vm_compute. reflexivity.
  - exact ca52_wf.
  - exact ratio_per_position.
  - exact ratio_resets.
Defined.

Lemma teCA_no_column_witness :
  teCA ca20 1 "both" world0 = Ok (mkMatrix 0 (replicate (length (rows ca20)) []), world0)
  ∧ teCA_Box ca20 1 "both" world0
    = Ok (mkBox 0 0 (replicate (length (rows ca20)) []), world0).
Proof.
  apply (teCA_no_column ca20 1 "both" world0). reflexivity.
Defined.

Lemma teCA_length_mismatch_witness :
  teCA (CALC := terse_calculator) ca52 1 "L" world0 = Raise ValueError.
Proof.
  apply (teCA_length_mismatch (CALC := terse_calculator) ca52 1 "L" world0).
  - left. vm_compute. reflexivity.
  - exact ca52_wf.
  - vm_compute. lia.
  - vm_compute. discriminate.
  - vm_compute. discriminate.
Defined.

(** * Further properties of [createCA] *)

Section CreateCA_more.
Context {RNG : NumpyRandom}.

(** The statements before the loop: the drawn row lands in a new array, a
    second new array of zeros is bound to [ca_new], and the loop starts on
    the matrix whose row 0 is the drawn row. *)
Lemma createCA_start (rule : gmap string string) (timesteps n : nat) (w : World) :
  let init := (randint (np_random w) 0 2 n).1 in
  let l0 := fresh (dom (heap w)) in
  let h0 := <[l0 := Vec init]> (heap w) in
  let l1 := fresh (dom h0) in
  let w1 := mkWorld (randint (np_random w) 0 2 n).2
              (<[l1 := Vec (replicate n 0%Z)]> h0) (calc_log w) in
  length init = n →
  l1 ≠ l0
  ∧ createCA rule timesteps n w
    = bind (for_range timesteps (createCA_step rule (Own l1))
              (mkMatrix n (init :: replicate timesteps (replicate n 0%Z)), Own l0))
        (λ st, ret st.1) w1.
Proof.
  intros init l0 h0 l1 w1 Hlen.
  assert (Hne : l1 ≠ l0).
  { intros E. pose proof (fresh_loc_None h0) as HN. fold l1 in HN.
    rewrite E in HN. unfold h0 in HN. by rewrite lookup_insert_eq in HN. }
  split; [done|].
  unfold createCA, np_random_randint.
  change (0 <? 2)%Z with true. cbv iota.
  unfold w1, l1, h0, l0, init in *. clear w1 l1 h0 l0 init.
  destruct (randint (np_random w) 0 2 n) as [init g] eqn:Hdraw.
  cbn [fst snd] in *.
  unfold bind at 1 2 3 4 5 6. unfold ret at 1, alloc at 1. rewrite Hdraw.
  cbn [heap np_random calc_log].
  unfold np_zeros, bind at 1, alloc, ret at 1. cbn [heap np_random calc_log].
  unfold np_read. cbn [heap].
  rewrite lookup_insert_ne by done. rewrite lookup_insert_eq.
  unfold set_row, np_zeros2. cbn [rows cols].
  rewrite decide_True by (rewrite length_replicate; lia).
  rewrite decide_True by done.
  replace (timesteps + 1) with (S timesteps) by lia.
  unfold ret at 1. cbn [replicate]. 
  change (<[0:=init]> (replicate n 0%Z :: replicate timesteps (replicate n 0%Z)))
    with (init :: replicate timesteps (replicate n 0%Z)).
  unfold bind.
  destruct (for_range timesteps _ _ _) as [[[ca sp] w']|e]; done.
Qed.

(** X8.  With [timesteps = 0] the rule is never read: [createCA] returns the
    one-row matrix of the drawn row for every rule dictionary, also an empty
    one. *)
Theorem createCA_no_step (rule : gmap string string) (n : nat) (w : World) :
  length (randint (np_random w) 0 2 n).1 = n →
  returned (createCA rule 0 n w) = Ok (mkMatrix n [(randint (np_random w) 0 2 n).1]).
Proof.
  intros Hlen.
  destruct (createCA_start rule 0 n w Hlen) as [_ ->]. done.
Qed.

(** X9.  When the rule has no entry for the neighbourhood of the first cell
    of the drawn row, a call with at least one step and one cell ends in a
    [KeyError] for that neighbourhood. *)
Theorem createCA_missing_neighbourhood (rule : gmap string string)
    (timesteps n : nat) (w : World) (l c r : Z) :
  let init := (randint (np_random w) 0 2 n).1 in
  0 < timesteps → 0 < n → length init = n →
  init !! Z.to_nat ((-1) mod Z.of_nat n) = Some l →
  init !! 0 = Some c →
  init !! Z.to_nat (1 mod Z.of_nat n) = Some r →
  rule !! (py_str l +:+ py_str c +:+ py_str r)%string = None →
  createCA rule timesteps n w
  = Raise (KeyError (py_str l +:+ py_str c +:+ py_str r)%string).
Proof.
  intros init Ht Hn Hlen Hl Hc Hr Hkey.
  destruct (createCA_start rule timesteps n w Hlen) as [Hne ->].
  fold init.
  apply bind_raise, for_range_raise; [done|].
  unfold createCA_step.
  set (l0 := fresh (dom (heap w))).
  erewrite bind_ok; cycle 1.
  { unfold np_read. cbn [heap]. rewrite lookup_insert_ne by done.
    by rewrite lookup_insert_eq. }
  apply bind_raise, for_range_raise; [lia|].
  unfold createCA_cell, astype_str, list_get.
  rewrite !list_lookup_fmap, !np_roll_lookup by lia.
  rewrite Hlen. change (Z.of_nat 0 - 1)%Z with (-1)%Z.
  change (Z.of_nat 0 - -1)%Z with 1%Z.
  fold init. rewrite Hl, Hc, Hr. cbn [fmap option_fmap option_map].
  unfold bind at 1, ret at 1. unfold bind at 1, ret at 1. unfold bind at 1, ret at 1.
  unfold bind at 1, dict_get. by rewrite Hkey.
Qed.

Lemma binary_key_listed (l c r : Z) :
  (l = 0 ∨ l = 1)%Z → (c = 0 ∨ c = 1)%Z → (r = 0 ∨ r = 1)%Z →
  (py_str l +:+ py_str c +:+ py_str r)%string ∈ binary_keys.
Proof.
  unfold binary_keys.
  intros [-> | ->] [-> | ->] [-> | ->];
    vm_compute; repeat first [apply list_elem_of_here | apply list_elem_of_further].
Qed.

(** Two rules that agree on the eight neighbourhoods give a binary row the
    same next row. *)
Lemma eca_row_agree (rule1 rule2 : gmap string string) (prev : list Z) :
  (∀ key, key ∈ binary_keys → rule1 !! key = rule2 !! key) →
  binary prev → eca_row rule1 prev = eca_row rule2 prev.
Proof.
  intros Hagree Hbin. unfold eca_row. apply list_fmap_ext. intros j i Hj.
  apply lookup_seq in Hj as [Ei Hi]. simpl in Ei. subst i. rename j into i. f_equal.
  unfold eca_next. set (n := Z.of_nat (length prev)).
  destruct (prev !! Z.to_nat ((Z.of_nat i - 1) mod n)) as [l|] eqn:El; [|done].
  destruct (prev !! i) as [c|] eqn:Ec; [|done].
  destruct (prev !! Z.to_nat ((Z.of_nat i + 1) mod n)) as [r|] eqn:Er; [|done].
  simpl. unfold rule_value.
  rewrite (Hagree (py_str l +:+ py_str c +:+ py_str r)%string); [done|].
  apply binary_key_listed; eauto using binary_lookup.
Qed.

Lemma eca_rows_agree (rule1 rule2 : gmap string string) (init : list Z) (t : nat) :
  rule_table rule1 →
  (∀ key, key ∈ binary_keys → rule1 !! key = rule2 !! key) →
  binary init → eca_rows rule1 init t = eca_rows rule2 init t.
Proof.
  intros Hrule Hagree Hbin. induction t as [|t IH]; [done|].
  change (eca_row rule1 (eca_rows rule1 init t) = eca_row rule2 (eca_rows rule2 init t)).
  rewrite <- IH. apply eca_row_agree; [done|]. by apply eca_rows_binary.
Qed.

(** X10.  Only the eight binary neighbourhoods of the rule are read: two rule
    dictionaries that agree on them, whatever other entries they hold, give
    the same matrix. *)
Theorem createCA_reads_eight_keys (rule1 rule2 : gmap string string)
    (timesteps n : nat) (w : World) :
  let init := (randint (np_random w) 0 2 n).1 in
  rule_table rule1 →
  (∀ key, key ∈ binary_keys → rule1 !! key = rule2 !! key) →
  length init = n → binary init →
  ∃ ca, returned (createCA rule1 timesteps n w) = Ok ca
      ∧ returned (createCA rule2 timesteps n w) = Ok ca.
Proof.
  intros init Hrule Hagree Hlen Hbin.
  assert (Hrule2 : rule_table rule2).
  { intros key Hkey. rewrite <- Hagree by done. by apply Hrule. }
  destruct (createCA_run rule1 timesteps n w Hrule Hlen Hbin) as [h1 Hrun1].
  destruct (createCA_run rule2 timesteps n w Hrule2 Hlen Hbin) as [h2 Hrun2].
  eexists. rewrite Hrun1, Hrun2. split; [done|]. cbn [returned].
  do 2 f_equal. apply list_fmap_ext. intros j t _.
  symmetry. by apply eca_rows_agree.
Qed.

(** Rolling a row and then updating it is updating it and then rolling. *)
Lemma eca_next_roll (rule : gmap string string) (s : Z) (a : list Z) (i : nat) :
  i < length a →
  eca_next rule (np_roll s a) i
  = eca_next rule a (Z.to_nat ((Z.of_nat i - s) mod Z.of_nat (length a))).
Proof.
  intros Hi. unfold eca_next. rewrite np_roll_length.
  set (n := Z.of_nat (length a)).
  assert (Hn : (0 < n)%Z) by (unfold n; lia).
  assert (Hb : ∀ z, (0 ≤ z mod n < n)%Z) by (intros z; apply Z.mod_pos_bound; lia).
  rewrite !np_roll_lookup by (pose proof (Hb (Z.of_nat i - 1)%Z);
                              pose proof (Hb (Z.of_nat i + 1)%Z); lia).
  fold n. rewrite !Z2Nat.id by apply Hb.
  assert (E1 : (((Z.of_nat i - 1) mod n - s) mod n
                = ((Z.of_nat i - s) mod n - 1) mod n)%Z).
  { rewrite !Zminus_mod_idemp_l. f_equal. lia. }
  assert (E2 : (((Z.of_nat i + 1) mod n - s) mod n
                = ((Z.of_nat i - s) mod n + 1) mod n)%Z).
  { rewrite Zminus_mod_idemp_l, Zplus_mod_idemp_l. f_equal. lia. }
  by rewrite E1, E2.
Qed.

Lemma eca_row_roll (rule : gmap string string) (s : Z) (a : list Z) :
  eca_row rule (np_roll s a) = np_roll s (eca_row rule a).
Proof.
  apply list_eq. intros i.
  destruct (decide (i < length a)) as [Hi|Hi].
  - assert (Hb : (0 ≤ (Z.of_nat i - s) mod Z.of_nat (length a) < Z.of_nat (length a))%Z)
      by (apply Z.mod_pos_bound; lia).
    rewrite np_roll_lookup by (rewrite eca_row_length; lia).
    rewrite eca_row_length. unfold eca_row.
    rewrite !list_lookup_fmap, np_roll_length.
    rewrite !lookup_seq_lt by lia. simpl. by rewrite eca_next_roll.
  - rewrite !lookup_ge_None_2; [done|..].
    + rewrite np_roll_length, eca_row_length. lia.
    + rewrite eca_row_length, np_roll_length. lia.
Qed.

Lemma eca_rows_roll (rule : gmap string string) (s : Z) (a : list Z) (t : nat) :
  eca_rows rule (np_roll s a) t = np_roll s (eca_rows rule a t).
Proof.
  induction t as [|t IH]; [done|].
  change (eca_row rule (eca_rows rule (np_roll s a) t)
          = np_roll s (eca_row rule (eca_rows rule a t))).
  by rewrite IH, eca_row_roll.
Qed.

Lemma np_roll_binary (s : Z) (a : list Z) : binary a → binary (np_roll s a).
Proof.
  unfold binary, np_roll. intros Ha. destruct (length a); [done|].
  apply Forall_app. split; [by apply Forall_drop | by apply Forall_take].
Qed.

(** X11.  The automaton lives on a ring: when the row drawn in one run is the
    row drawn in another rolled by [s] places, every row of the first result
    is the matching row of the second rolled by [s] places. *)
Theorem createCA_roll (rule : gmap string string) (timesteps n : nat) (s : Z)
    (w1 w2 : World) :
  let init := (randint (np_random w1) 0 2 n).1 in
  rule_table rule → length init = n → binary init →
  (randint (np_random w2) 0 2 n).1 = np_roll s init →
  ∃ ca1 ca2,
    returned (createCA rule timesteps n w1) = Ok ca1
    ∧ returned (createCA rule timesteps n w2) = Ok ca2
    ∧ ca2 = np_roll_axis1 s ca1.
Proof.
  intros init Hrule Hlen Hbin Hdraw.
  destruct (createCA_run rule timesteps n w1 Hrule Hlen Hbin) as [h1 Hrun1].
  destruct (createCA_run rule timesteps n w2 Hrule) as [h2 Hrun2].
  { rewrite Hdraw. by rewrite np_roll_length. }
  { rewrite Hdraw. by apply np_roll_binary. }
  eexists. eexists. rewrite Hrun1, Hrun2. split; [done|]. split; [done|].
  unfold np_roll_axis1. cbn [rows cols]. f_equal.
  rewrite <- list_fmap_compose. apply list_fmap_ext. intros j t _.
  rewrite Hdraw. simpl. apply eca_rows_roll.
Qed.

(** X12.  What [createCA] leaves behind: the arrays that existed before the
    call are as they were, the array that holds the drawn row was never
    written although the name [ca_space] moved on to [ca_new], the generator
    made the one draw, and the calculator was not called. *)
Theorem createCA_frame (rule : gmap string string) (timesteps n : nat) (w : World) :
  let init := (randint (np_random w) 0 2 n).1 in
  rule_table rule → length init = n → binary init →
  ∃ ca w',
    createCA rule timesteps n w = Ok (ca, w')
    ∧ (∀ l o, heap w !! l = Some o → heap w' !! l = Some o)
    ∧ heap w' !! fresh (dom (heap w)) = Some (Vec init)
    ∧ np_random w' = (randint (np_random w) 0 2 n).2
    ∧ calc_log w' = calc_log w.
Proof.
  intros init Hrule Hlen Hbin.
  destruct (createCA_start rule timesteps n w Hlen) as [Hne Hstart].
  fold init in Hstart.
  set (l0 := fresh (dom (heap w))) in *.
  set (h0 := <[l0 := Vec init]> (heap w)) in *.
  set (l1 := fresh (dom h0)) in *.
  set (h1 := <[l1 := Vec (replicate n 0%Z)]> h0) in *.
  set (w1 := mkWorld (randint (np_random w) 0 2 n).2 h1 (calc_log w)) in *.
  destruct (for_range_inv
    (λ t (st : Matrix Z * ndref) w',
       ∃ l d, st.2 = Own l
         ∧ heap w' !! l = Some (Vec (eca_rows rule init t))
         ∧ heap w' !! l1 = Some (Vec d) ∧ length d = n
         ∧ cols st.1 = n ∧ length (rows st.1) = S timesteps
         ∧ np_random w' = np_random w1 ∧ calc_log w' = calc_log w
         ∧ ∀ l', l' ≠ l1 → heap w' !! l' = h1 !! l')
    timesteps (createCA_step rule (Own l1))
    (mkMatrix n (init :: replicate timesteps (replicate n 0%Z)), Own l0) w1)
    as ([ca sp] & w' & Hrun & (l & d & _ & _ & _ & _ & _ & _ & Hg & Hlog & Hframe)).
  - exists l0, (replicate n 0%Z). unfold w1. cbn [fst snd heap cols rows length np_random calc_log].
    rewrite !length_replicate.
    split; [done|]. split.
    { unfold h1. rewrite lookup_insert_ne by done. unfold h0. by rewrite lookup_insert_eq. }
    split; [unfold h1; by rewrite lookup_insert_eq|]. done.
  - intros t [ca sp] wt Ht (l & d & Hsp & Hl & Hd & Hdl & Hcols & Hrows & Hg & Hlog & Hframe).
    cbn [fst snd] in *. subst sp.
    assert (Hcur : length (eca_rows rule init t) = n) by by rewrite eca_rows_length.
    eexists. eexists. split.
    + apply (createCA_step_ok rule ca (eca_rows rule init t) d l l1 t wt); try done;
        [by apply eca_rows_binary|lia..].
    + exists l1, (eca_row rule (eca_rows rule init t)).
      cbn [fst snd heap np_random calc_log cols rows].
      rewrite lookup_insert_eq, length_insert, eca_row_length.
      repeat split; try done.
      intros l' Hl'. rewrite lookup_insert_ne by done. by apply Hframe.
  - exists ca, w'. split.
    + rewrite Hstart. unfold bind. rewrite Hrun. done.
    + assert (Hl0 : heap w !! l0 = None) by apply fresh_loc_None.
      assert (Hl1 : h0 !! l1 = None) by apply fresh_loc_None.
      split; [|split; [|done]].
      * intros l' o Ho.
        assert (l' ≠ l0) by (intros ->; congruence).
        assert (l' ≠ l1).
        { intros ->. unfold h0 in Hl1. rewrite lookup_insert_ne in Hl1 by done.
          congruence. }
        rewrite Hframe by done. unfold h1, h0. by rewrite !lookup_insert_ne.
      * rewrite Hframe by done. unfold h1, h0.
        rewrite lookup_insert_ne by done. by rewrite lookup_insert_eq.
Qed.

End CreateCA_more.

Lemma createCA_no_step_witness :
  returned (createCA (RNG := lcg) ∅ 0 3 world0)
  = Ok (mkMatrix 3 [(randint (np_random world0) 0 2 3).1]).
Proof.
  apply (createCA_no_step (RNG := lcg) ∅ 3 world0).
  vm_compute. reflexivity.
Defined.

Lemma createCA_missing_neighbourhood_witness :
  createCA (RNG := lcg) ∅ 1 2 world0
  = Raise (KeyError (py_str 1 +:+ py_str 1 +:+ py_str 1)%string).
Proof.
  apply (createCA_missing_neighbourhood (RNG := lcg) ∅ 1 2 world0 1 1 1).
  - lia.
  - lia.
  - vm_compute. reflexivity.
  - vm_compute. reflexivity.
  - vm_compute. reflexivity.
  - vm_compute. reflexivity.
  - apply lookup_empty.
Defined.

Lemma createCA_reads_eight_keys_witness :
  ∃ ca, returned (createCA (RNG := lcg) rule90 3 6 world0) = Ok ca
      ∧ returned (createCA (RNG := lcg)
                    (<["222"%string := "two"%string]> (<["01"%string := "1"%string]> rule90))
                    3 6 world0) = Ok ca.
Proof.
  apply (createCA_reads_eight_keys (RNG := lcg) rule90
           (<["222"%string := "two"%string]> (<["01"%string := "1"%string]> rule90))
           3 6 world0).
  - exact rule90_table.
  - intros key Hkey.
    rewrite !lookup_insert_ne; [done|intros <-..];
      unfold binary_keys in Hkey;
      repeat (apply elem_of_cons in Hkey as [Hkey|Hkey]; [discriminate|]);
      by apply elem_of_nil in Hkey.
  - vm_compute. reflexivity.
  - vm_compute.
    repeat first [apply Forall_nil_2 | apply Forall_cons_2; [first [by left | by right]|]].
Defined.

Lemma createCA_roll_witness :
  ∃ ca1 ca2,
    returned (createCA (RNG := lcg) rule90 3 4 (mkWorld (RNG := lcg) 2%Z ∅ [])) = Ok ca1
    ∧ returned (createCA (RNG := lcg) rule90 3 4 (mkWorld (RNG := lcg) 1%Z ∅ [])) = Ok ca2
    ∧ ca2 = np_roll_axis1 1 ca1.
Proof.
  apply (createCA_roll (RNG := lcg) rule90 3 4 1
           (mkWorld (RNG := lcg) 2%Z ∅ []) (mkWorld (RNG := lcg) 1%Z ∅ [])).
  - exact rule90_table.
  - vm_compute. reflexivity.
  - vm_compute.
    repeat first [apply Forall_nil_2 | apply Forall_cons_2; [first [by left | by right]|]].
  - vm_compute. reflexivity.
Defined.

Lemma createCA_frame_witness :
  ∃ ca w',
    createCA (RNG := lcg) rule90 3 6 world1 = Ok (ca, w')
    ∧ (∀ l o, heap world1 !! l = Some o → heap w' !! l = Some o)
    ∧ heap w' !! fresh (dom (heap world1)) = Some (Vec (randint (np_random world1) 0 2 6).1)
    ∧ np_random w' = (randint (np_random world1) 0 2 6).2
    ∧ calc_log w' = calc_log world1.
Proof.
  apply (createCA_frame (RNG := lcg) rule90 3 6 world1).
  - exact rule90_table.
  - vm_compute. reflexivity.
  - vm_compute.
    repeat first [apply Forall_nil_2 | apply Forall_cons_2; [first [by left | by right]|]].
Defined.

(** * Further properties of [teCA_null] *)

Lemma list_max_replicate (n : nat) (v : Z) : list_max (replicate (S n) v) = v.
Proof.
  unfold list_max. cbn [replicate].
  induction n as [|n IH]; [done|]. cbn [replicate foldl].
  rewrite Z.max_id. exact IH.
Qed.

Section NullTest_more.
Context {RNG : NumpyRandom} {CALC : TECalculator} {FLT : NumpyFloat}.

(** X13.  A null test of no trial returns nothing: the loops do not run, the
    means and deviations are taken over nothing, and [np.max] along the empty
    axis ends the call in a [ValueError]. *)
Theorem teCA_null_zero_trials (ca : loc) (m : Matrix Z) (k : Z) (w : World) :
  heap w !! ca = Some (Mat m) →
  teCA_null ca k 0 w = Raise ValueError.
Proof.
  intros Hca.
  assert (Hload : np_load ca w = Ok (m, w)) by (unfold np_load; by rewrite Hca).
  unfold teCA_null, teCA_null_trials.
  unfold bind at 1. unfold bind at 1. rewrite Hload.
  unfold bind at 1. unfold for_range. cbn [seq for_each].
  unfold ret at 1. unfold ret at 1.
  unfold bind at 1, np_max_axis2.
  rewrite decide_True by done. done.
Qed.

(** X14.  A column that never changes has no null distribution: every shuffle
    of it is the column itself, so every trial stores the same integers, the
    truncated local values of the column against itself; at each time step
    the maximum is that integer and the mean and the deviation are taken over
    [numTrials] copies of it. *)
Theorem teCA_null_constant_column (ca : loc) (m : Matrix Z) (k : Z)
    (numTrials c : nat) (v : Z) (w : World) :
  heap w !! ca = Some (Mat m) → wf_matrix m →
  per_position → resets → shuffle_permutes → 0 < numTrials →
  c < cols m → column m c = replicate (length (rows m)) v →
  ∃ localTE_null localTE_std localTE_max w',
    teCA_null ca k numTrials w = Ok ((localTE_null, localTE_std, localTE_max), w')
    ∧ ∀ t, t < length (rows m) →
        ∃ u, local_te k (column m c) (column m c) !! t = Some u
          ∧ cell localTE_null t c = Some (np_mean (replicate numTrials (trunc u)))
          ∧ cell localTE_std t c = Some (np_std (replicate numTrials (trunc u)))
          ∧ cell localTE_max t c = Some (trunc u).
Proof.
  intros Hca Hwf Hlen Hres Hperm Htrials Hc Hconst.
  destruct (teCA_null_run ca m k numTrials w Hca Hwf Hlen Hres Htrials)
    as (localTE & h & Hrun & _ & Hshape & Hwf' & Hline).
  eexists. eexists. eexists. eexists. split; [exact Hrun|].
  intros t Ht.
  assert (Hsrc : ∀ i, null_source m (np_random w) i c = column m c).
  { intros i. symmetry. rewrite Hconst. apply replicate_Permutation.
    rewrite <- Hconst. symmetry. apply Hperm. }
  destruct (lookup_lt_is_Some_2 (local_te k (column m c) (column m c)) t) as [u Hu].
  { unfold local_te. rewrite Hlen, column_length by done. done. }
  exists u. split; [done|].
  destruct (teCA_null_cells localTE m k (np_random w) numTrials t c
              Hshape Hwf' Hwf Hline Ht Hc)
    as (vals & Hvlen & Hvals & Hmean & Hstd & Hmax).
  assert (Hrep : vals = replicate numTrials (trunc u)).
  { apply list_eq. intros i. destruct (decide (i < numTrials)) as [Hi|Hi].
    - rewrite Hvals, Hsrc, Hu by done. by rewrite lookup_replicate_2.
    - rewrite !lookup_ge_None_2; [done|rewrite ?length_replicate; lia..]. }
  rewrite Hmean, Hstd, Hmax, Hrep. split; [done|]. split; [done|].
  destruct numTrials as [|n]; [lia|]. by rewrite list_max_replicate.
Qed.

End NullTest_more.

Lemma teCA_null_zero_trials_witness :
  teCA_null (RNG := lcg) (CALC := ratio_calculator) (FLT := exact_float) 7 1 0 world1
  = Raise ValueError.
Proof.
  apply (teCA_null_zero_trials (RNG := lcg) (CALC := ratio_calculator) (FLT := exact_float)
           7 ca52 1 world1).
  vm_compute. reflexivity.
Defined.

Lemma teCA_null_constant_column_witness :
  ∃ localTE_null localTE_std localTE_max w',
    teCA_null (RNG := lcg) (CALC := ratio_calculator) (FLT := exact_float) 7 1 3 world3
    = Ok ((localTE_null, localTE_std, localTE_max), w')
    ∧ ∀ t, t < length (rows ca42) →
        ∃ u, local_te 1 (column ca42 0) (column ca42 0) !! t = Some u
          ∧ cell localTE_null t 0 = Some (np_mean (replicate 3 (trunc u)))
          ∧ cell localTE_std t 0 = Some (np_std (replicate 3 (trunc u)))
          ∧ cell localTE_max t 0 = Some (trunc u).
Proof.
  apply (teCA_null_constant_column (RNG := lcg) (CALC := ratio_calculator)
           (FLT := exact_float) 7 ca42 1 3 0 0%Z world3).
  - vm_compute. reflexivity.
  - unfold wf_matrix, ca42. simpl. repeat constructor.
  - exact ratio_per_position.
  - exact ratio_resets.
  - exact lcg_shuffle_permutes.
  - lia.
  - vm_compute. lia.
  - vm_compute. reflexivity.
Defined.

(** * Further properties of [greatestInfluence] *)

Section Influence_more.
Context {A : Type} (gtb : A → A → bool).

Lemma increment_out_of_range (a : list Z) (i : nat) :
  length a ≤ i → increment a (Z.of_nat i) = Raise IndexError.
Proof.
  intros Hi. unfold increment, py_index.
  assert (E : (Z.of_nat i <? 0)%Z = false) by (apply Z.ltb_ge; lia).
  assert (Hb : (Z.of_nat i <? Z.of_nat (length a))%Z = false) by (apply Z.ltb_ge; lia).
  rewrite E, Hb, andb_false_r. done.
Qed.

Lemma py_index_out_of_range {B} (a : list B) (z : Z) :
  (z < - Z.of_nat (length a) ∨ Z.of_nat (length a) ≤ z)%Z →
  py_index a z = Raise IndexError.
Proof.
  intros Hz. unfold py_index.
  destruct (z <? 0)%Z eqn:E.
  - apply Z.ltb_lt in E.
    assert (Hb : (0 <=? z + Z.of_nat (length a))%Z = false) by (apply Z.leb_gt; lia).
    by rewrite Hb.
  - apply Z.ltb_ge in E.
    assert (Hb : (z <? Z.of_nat (length a))%Z = false) by (apply Z.ltb_ge; lia).
    by rewrite Hb, andb_false_r.
Qed.

(** The plane of a row and its largest entry, on a box of any shape with
    planes that are not empty. *)
Lemma plane_argmax (teBox : Box A) (i : nat) :
  wf_box teBox → 0 < dim1 teBox * dim2 teBox → i < length (planes teBox) →
  ∃ plane index,
    planes teBox !! i = Some plane
    ∧ np_argmax gtb (concat plane) = Ok index
    ∧ index < dim1 teBox * dim2 teBox
    ∧ argmax_column gtb teBox i = index mod dim2 teBox.
Proof.
  intros Hwf Hpos Hi.
  destruct (lookup_lt_is_Some_2 (planes teBox) i) as [plane Hplane]; [lia|].
  eapply Forall_lookup in Hwf; [|done]. destruct Hwf as [Hp Hr].
  assert (Hcat : length (concat plane) = dim1 teBox * dim2 teBox)
    by by apply concat_length_wf.
  destruct (np_argmax_lt gtb (concat plane)) as (index & Harg & Hidx).
  { intros E. rewrite E in Hcat. change (length (@nil A)) with 0 in Hcat. lia. }
  exists plane, index. split; [done|]. split; [done|]. split; [lia|].
  unfold argmax_column. by rewrite Hplane, Harg.
Qed.

(** One pass of the loop, when the town of the row is within [indicies] and
    within [towns]. *)
Lemma greatestInfluence_step_fits (teBox : Box A) (i : nat) (towns : list Z) :
  wf_box teBox → 0 < dim1 teBox * dim2 teBox → i < length (planes teBox) →
  (-226 ≤ Z.of_nat i - Z.of_nat (argmax_column gtb teBox i) < 226)%Z →
  source_town gtb teBox i < length towns →
  ∃ v, towns !! source_town gtb teBox i = Some v
    ∧ greatestInfluence_step gtb teBox (np_arange 226) i towns
      = Ok (<[source_town gtb teBox i := (v + 1)%Z]> towns).
Proof.
  intros Hwf Hpos Hi Hz Hs.
  destruct (plane_argmax teBox i Hwf Hpos Hi) as (plane & index & Hplane & Harg & Hidx & Hcol).
  destruct (lookup_lt_is_Some_2 towns (source_town gtb teBox i)) as [v Hv]; [lia|].
  exists v. split; [done|].
  unfold greatestInfluence_step. rewrite Hplane, Harg. cbn [rbind].
  unfold np_unravel_index. rewrite decide_True by lia. cbn [rbind snd].
  rewrite <- Hcol. rewrite py_index_arange by lia. cbn [rbind].
  assert (Hst : ((Z.of_nat i - Z.of_nat (argmax_column gtb teBox i)) mod Z.of_nat 226)%Z
                = Z.of_nat (source_town gtb teBox i)).
  { unfold source_town. rewrite Z2Nat.id; [done|]. apply Z.mod_pos_bound. lia. }
  rewrite Hst. by apply increment_ok.
Qed.

(** One pass of the loop, when the town of the row is outside [indicies] or
    outside [towns]. *)
Lemma greatestInfluence_step_misfit (teBox : Box A) (i : nat) (towns : list Z) :
  wf_box teBox → 0 < dim1 teBox * dim2 teBox → i < length (planes teBox) →
  ¬ ((-226 ≤ Z.of_nat i - Z.of_nat (argmax_column gtb teBox i) < 226)%Z
     ∧ source_town gtb teBox i < length towns) →
  greatestInfluence_step gtb teBox (np_arange 226) i towns = Raise IndexError.
Proof.
  intros Hwf Hpos Hi Hno.
  destruct (plane_argmax teBox i Hwf Hpos Hi) as (plane & index & Hplane & Harg & Hidx & Hcol).
  unfold greatestInfluence_step. rewrite Hplane, Harg. cbn [rbind].
  unfold np_unravel_index. rewrite decide_True by lia. cbn [rbind snd].
  rewrite <- Hcol.
  destruct (decide (-226 ≤ Z.of_nat i - Z.of_nat (argmax_column gtb teBox i) < 226)%Z)
    as [Hz|Hz].
  - rewrite py_index_arange by lia. cbn [rbind].
    assert (Hst : ((Z.of_nat i - Z.of_nat (argmax_column gtb teBox i)) mod Z.of_nat 226)%Z
                  = Z.of_nat (source_town gtb teBox i)).
    { unfold source_town. rewrite Z2Nat.id; [done|]. apply Z.mod_pos_bound. lia. }
    rewrite Hst. apply increment_out_of_range.
    destruct (decide (source_town gtb teBox i < length towns)); [tauto|lia].
  - rewrite py_index_out_of_range; [done|]. rewrite np_arange_length. lia.
Qed.

(** The loop on a box of any shape, when the town of every row fits. *)
Lemma greatestInfluence_loop_fits (teBox : Box A) (range_ : list nat) (towns : list Z) :
  wf_box teBox → 0 < dim1 teBox * dim2 teBox →
  Forall (λ i, i < length (planes teBox)
             ∧ (-226 ≤ Z.of_nat i - Z.of_nat (argmax_column gtb teBox i) < 226)%Z
             ∧ source_town gtb teBox i < length towns) range_ →
  ∃ towns',
    greatestInfluence_loop gtb teBox (np_arange 226) range_ towns = Ok towns'
    ∧ length towns' = length towns
    ∧ (∀ s, towns' !! s
            = (λ v, (v + Z.of_nat (votes gtb teBox range_ s))%Z) <$> towns !! s)
    ∧ sum_Z towns' = (sum_Z towns + Z.of_nat (length range_))%Z.
Proof.
  intros Hwf Hpos Hrange. revert towns Hrange.
  induction range_ as [|i rest IH]; intros towns Hrange.
  - exists towns. cbn [greatestInfluence_loop length]. repeat split; [|lia].
    intros s. unfold votes. rewrite filter_nil. cbn [length].
    destruct (towns !! s); simpl; [f_equal; lia|done].
  - apply Forall_cons in Hrange as [(Hi & Hz & Hs) Hrest].
    destruct (greatestInfluence_step_fits teBox i towns Hwf Hpos Hi Hz Hs)
      as (v & Hv & Hstep).
    destruct (IH (<[source_town gtb teBox i := (v + 1)%Z]> towns))
      as (towns' & Hloop & Hlen' & Hvotes & Hsum); [by rewrite length_insert|].
    rewrite length_insert in Hlen'.
    exists towns'. cbn [greatestInfluence_loop]. rewrite Hstep. cbn [rbind].
    split; [done|]. split; [done|]. split.
    + intros s. rewrite Hvotes, votes_cons.
      destruct (decide (source_town gtb teBox i = s)) as [<-|Hne].
      * rewrite list_lookup_insert_eq by done.
        rewrite Hv. simpl. f_equal. lia.
      * rewrite list_lookup_insert_ne by done.
        destruct (towns !! s); simpl; [f_equal; lia|done].
    + rewrite Hsum, (sum_Z_insert _ _ v) by done. cbn [length]. lia.
Qed.

(** The loop on a box of any shape, when the town of some row does not fit. *)
Lemma greatestInfluence_loop_misfit (teBox : Box A) (range_ : list nat) (towns : list Z) :
  wf_box teBox → 0 < dim1 teBox * dim2 teBox →
  Forall (λ i, i < length (planes teBox)) range_ →
  Exists (λ i, ¬ ((-226 ≤ Z.of_nat i - Z.of_nat (argmax_column gtb teBox i) < 226)%Z
                  ∧ source_town gtb teBox i < length towns)) range_ →
  greatestInfluence_loop gtb teBox (np_arange 226) range_ towns = Raise IndexError.
Proof.
  intros Hwf Hpos Hrange. revert towns.
  induction Hrange as [|i rest Hi _ IH]; intros towns Hex.
  - by apply Exists_nil in Hex.
  - cbn [greatestInfluence_loop].
    destruct (decide ((-226 ≤ Z.of_nat i - Z.of_nat (argmax_column gtb teBox i) < 226)%Z
                      ∧ source_town gtb teBox i < length towns)) as [[Hz Hs]|Hno].
    + destruct (greatestInfluence_step_fits teBox i towns Hwf Hpos Hi Hz Hs)
        as (v & Hv & Hstep).
      rewrite Hstep. cbn [rbind]. apply IH. rewrite length_insert.
      apply Exists_cons in Hex as [Hex|Hex]; [tauto|done].
    + by rewrite (greatestInfluence_step_misfit teBox i towns Hwf Hpos Hi Hno).
Qed.

(** When each row in [range_] singles out itself, a town has one vote if it
    is in [range_] and none otherwise. *)
Lemma votes_own (teBox : Box A) (range_ : list nat) (s : nat) :
  NoDup range_ → Forall (λ i, source_town gtb teBox i = i) range_ →
  votes gtb teBox range_ s = if decide (s ∈ range_) then 1 else 0.
Proof.
  intros Hnd Hown. induction Hnd as [|i rest Hi Hnd IH].
  - unfold votes. rewrite filter_nil. by rewrite decide_False by apply not_elem_of_nil.
  - apply Forall_cons in Hown as [Hi' Hrest].
    rewrite votes_cons, (IH Hrest), Hi'.
    destruct (decide (i = s)) as [->|Hne].
    + rewrite decide_False by done. rewrite decide_True by apply list_elem_of_here. done.
    + destruct (decide (s ∈ rest)) as [Hin|Hin].
      * rewrite decide_True by by apply list_elem_of_further. done.
      * rewrite decide_False; [done|]. intros Hin'.
        apply elem_of_cons in Hin' as [->|Hin']; done.
Qed.

(** A plane whose first entry no other entry exceeds has its largest entry,
    as [np.argmax] finds it, at position 0. *)
Lemma argmax_from_first (best : A) (best_i i : nat) (a : list A) :
  Forall (λ x, gtb x best = false) a → argmax_from gtb best best_i i a = best_i.
Proof.
  intros Ha. revert i. induction Ha as [|x a Hx _ IH]; intros i; simpl; [done|].
  by rewrite Hx.
Qed.

(** X15.  [greatestInfluence] on a box of any shape (N, d1, d2) with planes
    that are not empty: when for every row [i] the index [i - j], [j] the
    column of the largest entry of the plane, is between -226 and 225 and the
    town [(i - j) mod 226] is below N, the call returns 0, ..., 225 and N
    counters, counter [s] holding the number of rows whose town is [s]; the
    counters add up to N. *)
Theorem greatestInfluence_any_shape (teBox : Box A) :
  wf_box teBox → 0 < dim1 teBox * dim2 teBox →
  (∀ i, i < length (planes teBox) →
     (-226 ≤ Z.of_nat i - Z.of_nat (argmax_column gtb teBox i) < 226)%Z
     ∧ source_town gtb teBox i < length (planes teBox)) →
  ∃ towns,
    greatestInfluence gtb teBox = Ok (Z.of_nat <$> seq 0 226, towns)
    ∧ length towns = length (planes teBox)
    ∧ (∀ s, s < length (planes teBox) →
         towns !! s
         = Some (Z.of_nat (length (filter (λ i, source_town gtb teBox i = s)
                                     (seq 0 (length (planes teBox)))))))
    ∧ sum_Z towns = Z.of_nat (length (planes teBox)).
Proof.
  intros Hwf Hpos Hfit.
  set (N := length (planes teBox)) in *.
  destruct (greatestInfluence_loop_fits teBox (seq 0 N) (replicate N 0%Z) Hwf Hpos)
    as (towns & Hloop & Hlen & Hvotes & Hsum).
  { apply Forall_seq. intros i Hi. rewrite length_replicate.
    split; [fold N; lia|]. apply Hfit. lia. }
  rewrite length_replicate in Hlen.
  exists towns. unfold greatestInfluence. fold N. rewrite Hloop. cbn [rbind].
  split; [done|]. split; [done|]. split.
  - intros s Hs. rewrite Hvotes, lookup_replicate_2 by done. simpl. f_equal.
  - rewrite Hsum, sum_Z_replicate_0, length_seq. lia.
Qed.

(** X16.  On a box with planes that are not empty, when for some row [i] the
    index [i - j] is outside -226 ... 225 or the town [(i - j) mod 226] is not
    below the number N of rows, [greatestInfluence] ends in an [IndexError]:
    nothing is returned, whatever the other rows hold. *)
Theorem greatestInfluence_out_of_range (teBox : Box A) (i : nat) :
  wf_box teBox → 0 < dim1 teBox * dim2 teBox → i < length (planes teBox) →
  (Z.of_nat i - Z.of_nat (argmax_column gtb teBox i) < -226
   ∨ 226 ≤ Z.of_nat i - Z.of_nat (argmax_column gtb teBox i))%Z
  ∨ length (planes teBox) ≤ source_town gtb teBox i →
  greatestInfluence gtb teBox = Raise IndexError.
Proof.
  intros Hwf Hpos Hi Hout.
  unfold greatestInfluence.
  rewrite (greatestInfluence_loop_misfit teBox); [done..| |].
  - apply Forall_seq. intros k Hk. lia.
  - apply Exists_exists. exists i. split.
    + apply elem_of_seq. lia.
    + rewrite length_replicate. lia.
Qed.

(** X17.  On a box with at least one row whose planes are empty (shape
    (N, d1, d2) with [d1 * d2 = 0]), [greatestInfluence] ends in a
    [ValueError]: [np.argmax] has no largest entry to find. *)
Theorem greatestInfluence_empty_plane (teBox : Box A) :
  wf_box teBox → 0 < length (planes teBox) → dim1 teBox * dim2 teBox = 0 →
  greatestInfluence gtb teBox = Raise ValueError.
Proof.
  intros Hwf HN Hzero.
  destruct (lookup_lt_is_Some_2 (planes teBox) 0) as [plane Hplane]; [lia|].
  eapply Forall_lookup in Hwf; [|done]. destruct Hwf as [Hp Hr].
  assert (Hcat : length (concat plane) = dim1 teBox * dim2 teBox)
    by by apply concat_length_wf.
  rewrite Hzero in Hcat. apply nil_length_inv in Hcat.
  unfold greatestInfluence.
  destruct (length (planes teBox)) as [|N] eqn:EN; [lia|].
  cbn [seq greatestInfluence_loop]. unfold greatestInfluence_step.
  rewrite Hplane, Hcat. done.
Qed.

(** When no entry of a plane exceeds the first entry of that plane, every row
    singles out its own town. *)
Lemma greatestInfluence_first_wins (teBox : Box A) :
  wf_box teBox → 0 < dim1 teBox * dim2 teBox → length (planes teBox) ≤ 226 →
  (∀ plane first rest, plane ∈ planes teBox → concat plane = first :: rest →
     Forall (λ x, gtb x first = false) rest) →
  greatestInfluence gtb teBox
  = Ok (Z.of_nat <$> seq 0 226, replicate (length (planes teBox)) 1%Z).
Proof.
  intros Hwf Hpos HN Hties.
  set (N := length (planes teBox)) in *.
  assert (Hcol : ∀ i, i < N → argmax_column gtb teBox i = 0).
  { intros i Hi.
    destruct (plane_argmax teBox i Hwf Hpos Hi)
      as (plane & index & Hplane & Harg & Hidx & ->).
    destruct (concat plane) as [|first rest] eqn:Hcat; [done|].
    simpl in Harg.
    rewrite argmax_from_first in Harg.
    - injection Harg as <-. apply Nat.Div0.mod_0_l.
    - apply (Hties plane); [|done]. by eapply list_elem_of_lookup_2. }
  assert (Hown : ∀ i, i < N → source_town gtb teBox i = i).
  { intros i Hi. unfold source_town. rewrite (Hcol i Hi).
    rewrite Z.sub_0_r, Z.mod_small by lia. lia. }
  destruct (greatestInfluence_loop_fits teBox (seq 0 N) (replicate N 0%Z) Hwf Hpos)
    as (towns & Hloop & Hlen & Hvotes & _).
  { apply Forall_seq. intros i Hi. rewrite length_replicate.
    rewrite (Hcol i), (Hown i) by lia. fold N. lia. }
  rewrite length_replicate in Hlen.
  unfold greatestInfluence. fold N. rewrite Hloop. cbn [rbind].
  do 2 f_equal. apply list_eq. intros s.
  rewrite Hvotes.
  destruct (decide (s < N)) as [Hs|Hs].
  - rewrite !lookup_replicate_2 by done. simpl. f_equal.
    rewrite votes_own.
    + rewrite decide_True; [done|]. apply elem_of_seq. lia.
    + apply NoDup_seq.
    + apply Forall_seq. intros i Hi. apply Hown. lia.
  - rewrite !lookup_ge_None_2 by (rewrite length_replicate; lia). done.
Qed.

(** X18.  Ties go to the row itself: on a box of at most 226 rows in which no
    entry of a plane exceeds the first entry of that plane (a box of equal
    entries, such as one of zeros), every row singles out its own town, and
    [greatestInfluence] returns the count 1 for every town. *)
Theorem greatestInfluence_ties (teBox : Box A) :
  wf_box teBox → 0 < dim1 teBox * dim2 teBox → length (planes teBox) ≤ 226 →
  (∀ plane first rest, plane ∈ planes teBox → concat plane = first :: rest →
     Forall (λ x, gtb x first = false) rest) →
  greatestInfluence gtb teBox
  = Ok (Z.of_nat <$> seq 0 226, replicate (length (planes teBox)) 1%Z).
Proof. apply greatestInfluence_first_wins. Qed.

End Influence_more.

Lemma greatestInfluence_any_shape_witness :
  ∃ towns,
    greatestInfluence Z.gtb diagonal_box = Ok (Z.of_nat <$> seq 0 226, towns)
    ∧ length towns = length (planes diagonal_box)
    ∧ (∀ s, s < length (planes diagonal_box) →
         towns !! s
         = Some (Z.of_nat (length (filter (λ i, source_town Z.gtb diagonal_box i = s)
                                     (seq 0 (length (planes diagonal_box)))))))
    ∧ sum_Z towns = Z.of_nat (length (planes diagonal_box)).
Proof.
  apply (greatestInfluence_any_shape Z.gtb diagonal_box).
  - apply tabulate_box_wf.
  - vm_compute. lia.
  - intros i Hi. change (length (planes diagonal_box)) with 3 in Hi.
    destruct i as [|[|[|i]]]; [vm_compute; repeat split; first [done|lia]..|lia].
Defined.

Lemma greatestInfluence_out_of_range_witness :
  greatestInfluence Z.gtb (tabulate_box 2 (λ i c j, Z.of_nat j)) = Raise IndexError.
Proof.
  apply (greatestInfluence_out_of_range Z.gtb (tabulate_box 2 (λ i c j, Z.of_nat j)) 0).
  - apply tabulate_box_wf.
  - vm_compute. lia.
  - vm_compute. lia.
  - right. vm_compute. lia.
Defined.

Lemma greatestInfluence_empty_plane_witness :
  greatestInfluence Z.gtb (np_zeros3 2 0 3) = Raise ValueError.
Proof.
  apply (greatestInfluence_empty_plane Z.gtb (np_zeros3 2 0 3)).
  - unfold wf_box, np_zeros3. simpl. repeat constructor.
  - vm_compute. lia.
  - vm_compute. reflexivity.
Defined.

Lemma greatestInfluence_ties_witness :
  greatestInfluence Z.gtb (np_zeros3 3 2 2)
  = Ok (Z.of_nat <$> seq 0 226, replicate (length (planes (np_zeros3 3 2 2))) 1%Z).
Proof.
  apply (greatestInfluence_ties Z.gtb (np_zeros3 3 2 2)).
  - unfold wf_box, np_zeros3. simpl. repeat constructor.
  - vm_compute. lia.
  - vm_compute. lia.
  - intros plane first rest Hin Hcat.
    apply elem_of_replicate in Hin as [-> _].
    injection Hcat as <- <-. repeat constructor.
Defined.

(** * The functions in sequence *)

Lemma np_zeros3_line (r c d j i : nat) :
  j < c → i < d → line (np_zeros3 r c d) j i = replicate r 0%Z.
Proof.
  intros Hj Hi. unfold line, np_zeros3. cbn [planes].
  induction r as [|r IH]; [done|]. cbn [replicate omap list_omap].
  rewrite lookup_replicate_2 by done. cbn [mbind option_bind].
  rewrite lookup_replicate_2 by done. f_equal. exact IH.
Qed.

Lemma trunc_small_all (vals : list Q) :
  Forall (λ v, (-1 < v)%Q ∧ (v < 1)%Q) vals →
  trunc <$> vals = replicate (length vals) 0%Z.
Proof.
  induction 1 as [|v vals [Hlo Hhi] _ IH]; [done|].
  cbn [fmap list_fmap length replicate]. rewrite trunc_small by done.
  f_equal. exact IH.
Qed.

Section Pipeline.
Context {RNG : NumpyRandom} {CALC : TECalculator}.

(** X19.  What [createCA] returns is what [teCA] and [teCA_Box] take: on the
    matrix of a run of [timesteps] steps over [n] cells both return, for a
    neighbour "L" or "R" in any case, with results of shape
    [(timesteps + 1, n)] and [(timesteps + 1, n, n)]; neither touches the
    generator, so a later draw is the one that would have followed
    [createCA]. *)
Theorem createCA_then_teCA (rule : gmap string string) (timesteps n : nat) (k : Z)
    (neighbor : string) (w : World) :
  let init := (randint (np_random w) 0 2 n).1 in
  rule_table rule → length init = n → binary init →
  upper neighbor = "L"%string ∨ upper neighbor = "R"%string →
  per_position → resets →
  ∃ ca w1,
    createCA rule timesteps n w = Ok (ca, w1)
    ∧ (∃ localTE w2,
         teCA ca k neighbor w1 = Ok (localTE, w2)
         ∧ shape localTE = (timesteps + 1, n)
         ∧ np_random w2 = (randint (np_random w) 0 2 n).2)
    ∧ (∃ localTE w2,
         teCA_Box ca k neighbor w1 = Ok (localTE, w2)
         ∧ shape3 localTE = (timesteps + 1, n, n)
         ∧ np_random w2 = (randint (np_random w) 0 2 n).2).
Proof.
  intros init Hrule Hlen Hbin Hn Hpos Hres. apply neighbour_cases in Hn.
  destruct (createCA_run rule timesteps n w Hrule Hlen Hbin) as [h Hrun].
  fold init in Hrun.
  set (ca := mkMatrix n (eca_rows rule init <$> seq 0 (S timesteps))) in *.
  assert (Hwf : wf_matrix ca).
  { unfold wf_matrix, ca. cbn [rows cols]. apply Forall_fmap, Forall_forall.
    intros t _. unfold compose. by rewrite eca_rows_length. }
  assert (Hrows : length (rows ca) = timesteps + 1).
  { unfold ca. cbn [rows]. rewrite length_fmap, length_seq. lia. }
  eexists. eexists. split; [exact Hrun|]. split.
  - destruct (teCA_run ca k (neighbour_sign neighbor) neighbor
                (mkWorld (randint (np_random w) 0 2 n).2 h (calc_log w)))
      as (localTE & Hte & Hcols & Hlen' & _); [done..|].
    eexists. eexists. split; [exact Hte|]. split; [|done].
    unfold shape. by rewrite Hcols, Hlen', Hrows.
  - destruct (teCA_Box_run ca k (neighbour_sign neighbor) neighbor
                (mkWorld (randint (np_random w) 0 2 n).2 h (calc_log w)))
      as (localTE & Hte & Hshape & _); [done..|].
    eexists. eexists. split; [exact Hte|]. split; [|done].
    by rewrite Hshape, Hrows.
Qed.

(** X20.  [teCA_Box], then [greatestInfluence]: when every value that the
    calculator returns lies strictly between -1 and 1, the integer box holds
    only zeros, the largest entry of every plane is its first, and each of the
    (at most 226) rows counts for its own town: every counter is 1, whatever
    the calculator found. *)
Theorem influence_of_small_values (ca : Matrix Z) (k : Z) (neighbor : string) (w : World) :
  upper neighbor = "L"%string ∨ upper neighbor = "R"%string →
  wf_matrix ca → per_position → resets →
  0 < cols ca → length (rows ca) ≤ 226 →
  (∀ c i, c < cols ca → i < cols ca →
     Forall (λ v, (-1 < v)%Q ∧ (v < 1)%Q)
       (local_te k
          (column ca (ring_index (cols ca) c (neighbour_sign neighbor * Z.of_nat i)))
          (column ca c))) →
  ∃ teBox w',
    teCA_Box ca k neighbor w = Ok (teBox, w')
    ∧ teBox = np_zeros3 (length (rows ca)) (cols ca) (cols ca)
    ∧ greatestInfluence Z.gtb teBox
      = Ok (Z.of_nat <$> seq 0 226, replicate (length (rows ca)) 1%Z).
Proof.
  intros Hn Hwf Hpos Hres Hcols Hrows Hsmall. apply neighbour_cases in Hn.
  destruct (teCA_Box_run ca k (neighbour_sign neighbor) neighbor w)
    as (teBox & Hrun & Hshape & Hwf' & Hline); [done..|].
  assert (Hzero : teBox = np_zeros3 (length (rows ca)) (cols ca) (cols ca)).
  { assert (Hd1 : dim1 teBox = cols ca) by exact (f_equal (λ p, p.1.2) Hshape).
    assert (Hd2 : dim2 teBox = cols ca) by exact (f_equal snd Hshape).
    apply box_ext; [|done|apply np_zeros3_wf|].
    - rewrite Hshape. unfold shape3, np_zeros3. cbn [planes dim1 dim2].
      by rewrite length_replicate.
    - intros c i Hc Hi. rewrite Hd1 in Hc. rewrite Hd2 in Hi.
      rewrite Hline, np_zeros3_line by done.
      rewrite trunc_small_all by by apply Hsmall.
      unfold local_te. by rewrite Hpos, column_length. }
  exists teBox. eexists. split; [exact Hrun|]. split; [done|].
  rewrite Hzero.
  replace (replicate (length (rows ca)) 1%Z)
    with (replicate (length (planes (np_zeros3 (length (rows ca)) (cols ca) (cols ca)))) 1%Z)
    by (unfold np_zeros3; cbn [planes]; by rewrite length_replicate).
  apply greatestInfluence_first_wins.
  - apply np_zeros3_wf.
  - unfold np_zeros3. cbn [dim1 dim2]. nia.
  - unfold np_zeros3. cbn [planes]. by rewrite length_replicate.
  - intros plane first rest Hin Hcat.
    unfold np_zeros3 in Hin. cbn [planes] in Hin.
    apply elem_of_replicate in Hin as [-> _].
    assert (Hall : Forall (λ x, x = 0%Z) (concat (replicate (cols ca) (replicate (cols ca) 0%Z)))).
    { apply Forall_concat, Forall_replicate, Forall_replicate. done. }
    rewrite Hcat in Hall. apply Forall_cons in Hall as [-> Hall].
    eapply Forall_impl; [exact Hall|]. by intros x ->.
Qed.

End Pipeline.

Lemma createCA_then_teCA_witness :
  ∃ ca w1,
    createCA rule90 3 6 world0 = Ok (ca, w1)
    ∧ (∃ localTE w2,
         teCA ca 1 "l" w1 = Ok (localTE, w2)
         ∧ shape localTE = (3 + 1, 6)
         ∧ np_random w2 = (randint (np_random world0) 0 2 6).2)
    ∧ (∃ localTE w2,
         teCA_Box ca 1 "l" w1 = Ok (localTE, w2)
         ∧ shape3 localTE = (3 + 1, 6, 6)
         ∧ np_random w2 = (randint (np_random world0) 0 2 6).2).
Proof.
  apply (createCA_then_teCA rule90 3 6 1 "l" world0).
  - exact rule90_table.
  - vm_compute. reflexivity.
  - vm_compute.
    repeat first [apply Forall_nil_2 | apply Forall_cons_2; [first [by left | by right]|]].
  - left. vm_compute. reflexivity.
  - exact ratio_per_position.
  - exact ratio_resets.
Defined.

Lemma influence_of_small_values_witness :
  ∃ teBox w',
    teCA_Box ca42 1 "R" world0 = Ok (teBox, w')
    ∧ teBox = np_zeros3 (length (rows ca42)) (cols ca42) (cols ca42)
    ∧ greatestInfluence Z.gtb teBox
      = Ok (Z.of_nat <$> seq 0 226, replicate (length (rows ca42)) 1%Z).
Proof.
  apply (influence_of_small_values ca42 1 "R" world0).
  - right. vm_compute. reflexivity.
  - unfold wf_matrix, ca42. simpl. repeat constructor.
  - exact ratio_per_position.
  - exact ratio_resets.
  - vm_compute. lia.
  - vm_compute. lia.
  - intros c i Hc Hi. change (cols ca42) with 2 in *.
    destruct c as [|[|c]]; [| |lia]; (destruct i as [|[|i]]; [| |lia]);
      vm_compute; repeat constructor.
Defined.
